(** * CalibNet_pytorch: the training script [train.py]

  A shallow embedding of [val], [train] and the data-loader set-up of
  the script's entry point, and the properties of the refinement loop,
  the loss, the checkpoints and the batching that follow from the code.

  Python objects that the script mutates (the model, the optimizer, the
  [args] namespace, the files under the checkpoint directory) live in an
  explicit [World]; the script's functions are computations in a state
  and exception monad over it.  Calls into the collaborators (network,
  exponential map, depth reprojector, losses) are recorded in a trace.

  Tensors are values: [t.to(device)] returns [t].  What the script
  prints or logs (tqdm, print_warning, the logger) is left out, as are
  failures inside the collaborators (shapes, devices, the file system);
  the exceptions of the script's own control path are kept. *)

From Stdlib Require Import ZArith List Bool Lia Floats Ascii String.
From stdpp Require Import gmap strings list fin_maps pretty.
Import ListNotations.

Local Open Scope string_scope.
Local Open Scope Z_scope.
Local Open Scope list_scope.

(** ** Batched 4x4 transforms

  [torch.eye], [Tensor.repeat] and [Tensor.bmm] on tensors of shape
  (B,4,4), over an arbitrary carrier of entries. *)
Module Tensor.
Section Entries.
Context {R : Type} (r0 r1 : R) (radd rmul : R -> R -> R).

Definition mat : Type := list (list R).
(** a tensor of shape (B,n,n): one matrix per batch element *)
Definition bmat : Type := list mat.

Definition eye (n : nat) : mat :=
  map (fun i => map (fun j => if Nat.eqb i j then r1 else r0) (seq 0 n)) (seq 0 n).

(** [m.repeat(B,1,1)] on a 2-d tensor [m] *)
Definition repeat_batch (m : mat) (B : nat) : bmat := repeat m B.

Definition dot (u v : list R) : R :=
  fold_left radd (zip_with rmul u v) r0.

Definition col (j : nat) (m : mat) : list R :=
  map (fun row => nth j row r0) m.

Definition ncols (m : mat) : nat :=
  match m with [] => O | row :: _ => length row end.

Definition mm (a b : mat) : mat :=
  map (fun row => map (fun j => dot row (col j b)) (seq 0 (ncols b))) a.

(** [a.bmm(b)]: a NEW tensor, the product of each pair of matrices;
    neither operand is modified. *)
Definition bmm (a b : bmat) : bmat := zip_with mm a b.
End Entries.
End Tensor.

(** ** Exceptions the script can raise on its own control path *)
Inductive PyErr : Type :=
  | KeyError (key : string)
  | IndexError
  | ZeroDivisionError
  | ValueError
  | TypeError
  | FileNotFoundError (path : string).

(** ** [os.path.join] for two components (posixpath) *)
Definition starts_with_slash (s : string) : bool :=
  match s with
  | String c _ => if Ascii.ascii_dec c "/"%char then true else false
  | EmptyString => false
  end.

Fixpoint ends_with_slash (s : string) : bool :=
  match s with
  | EmptyString => false
  | String c EmptyString => if Ascii.ascii_dec c "/"%char then true else false
  | String _ rest => ends_with_slash rest
  end.

Definition path_join (a b : string) : string :=
  if starts_with_slash b then b
  else if orb (String.eqb a "") (ends_with_slash a) then a ++ b
  else a ++ "/" ++ b.

(** ** The command line ([options]) *)
Record Args : Type := mkArgs {
  a_batch_size : Z;
  a_device : string;
  a_resume : string;
  a_epoch : Z;
  a_checkpoint_dir : string;
  a_checkpoint_name : string;
  a_lr0 : float;
  a_momentum : float;
  a_weight_decay : float;
  a_lr_exp_decay : float;
  a_scale : float;
  a_inner_iter : Z;
  a_alpha : float;
  a_beta : float;
  a_pooling : Z
  }.

Definition set_device (dev : string) (a : Args) : Args :=
  mkArgs (a_batch_size a) dev (a_resume a) (a_epoch a) (a_checkpoint_dir a)
         (a_checkpoint_name a) (a_lr0 a) (a_momentum a) (a_weight_decay a)
         (a_lr_exp_decay a) (a_scale a) (a_inner_iter a) (a_alpha a) (a_beta a)
         (a_pooling a).

(** ** Python floats

  [float] is the kernel's binary64; [<] and [+], [/] are IEEE. *)
Definition float_of_len (n : nat) : float :=
  PrimFloat.of_uint63 (Uint63.of_Z (Z.of_nat n)).

(** [x / n] for a float or int [x] (held as a float) and [n = len(loader)]. *)
Definition div_by_len (x : float) (n : nat) : PyErr + float :=
  match n with
  | O => inl ZeroDivisionError
  | _ => inr (PrimFloat.div x (float_of_len n))
  end.

(** ** Collaborators

    The modules of the repository that the script imports ([CalibNet],
    [utils], [loss]) and torch, as an interface: the tensors by the role
    they play, the state of the network, of autograd and of the
    optimizer, and the operations the script calls.  [R] is the carrier
    of the entries of a (B,4,4) transform. *)
Class Collab : Type := {
    Img : Type; Depth : Type; Pcd : Type; Rot : Type; Tsl : Type;
    Twist : Type; Intr : Type; Shape : Type; Scalar : Type; R : Type;
    Params : Type; Buffers : Type; Grads : Type; OptState : Type; Sched : Type;
    r0 : R; r1 : R; radd : R -> R -> R; rmul : R -> R -> R;
    (** [t.size(0)] and [t.shape[-2:]] of an image batch *)
    size0 : Img -> nat;
    shape_hw : Img -> Shape;
    (** [torch.cat([twist_rot,twist_tsl],dim=1)] *)
    cat : Rot -> Tsl -> Twist;
    (** [t.item()], [x * t] for a float [x], and [t + u] on 0-dim tensors *)
    item : Scalar -> float;
    smul : float -> Scalar -> Scalar;
    sadd : Scalar -> Scalar -> Scalar;
    (** [CalibNet(backbone_pretrained=False)] and its forward pass, which
        reads the parameters and may update the buffers (batch-norm
        statistics) according to the training flag *)
    init_params : Params;
    init_buffers : Buffers;
    no_grads : Grads;
    forward : Params -> Buffers -> bool -> Img -> Depth -> (Rot * Tsl) * Buffers;
    (** [utils.se3.exp], and a call of a [utils.transform.DepthImgGenerator]
        built from an image shape, intrinsics and a pooling size *)
    se3_exp : Twist -> @Tensor.bmat R;
    reproject : Shape -> Intr -> Z -> @Tensor.bmat R -> Pcd -> Depth * Pcd;
    (** [loss_utils] *)
    Photo_Loss : float -> Depth -> Depth -> Scalar;
    ChamferDistanceLoss : float -> string -> Pcd -> Pcd -> Scalar;
    geodesic_distance : @Tensor.bmat R -> @Tensor.bmat R -> Scalar * Scalar;
    (** autograd, [torch.optim.SGD] and [lr_scheduler.ExponentialLR] *)
    zero_grad : Grads -> Grads;
    backward : Scalar -> Grads -> Grads;
    SGD : Params -> float -> float -> float -> OptState;
    optim_step : OptState -> Params -> Grads -> OptState * Params;
    ExponentialLR : OptState -> float -> Sched * OptState;
    sched_step : Sched -> OptState -> Sched * OptState
  }.

(** A batch of transforms, shape (B,4,4). *)
Abbreviation Mat := (@Tensor.bmat R).

(** ** The script *)
Section Script.
Context `{C : Collab}.

(** *** Data *)
(** One batch of the data loader (a dict; the keys the script reads).
    [InTran] is batched like the rest: one intrinsics matrix per batch
    element. *)
Record Batch : Type := mkBatch {
    b_img : Img;
    b_depth_img : Depth;
    b_pcd : Pcd;
    b_uncalibed_pcd : Pcd;
    b_uncalibed_depth_img : Depth;
    b_igt : Mat;
    b_InTran : list Intr
  }.

(** A [DepthImgGenerator] object: what it was constructed with. *)
Record DepthGen : Type := mkDepthGen {
    dg_shape : Shape;
    dg_InTran : Intr;
    dg_pooling : Z
  }.

(** Values stored in a checkpoint dict. *)
Inductive PyVal : Type :=
  | VModelState (p : Params) (b : Buffers)
  | VOptimState (o : OptState)
  | VFloat (x : float)
  | VInt (z : Z).

(** Calls and effects that the script performs, in program order. *)
Inductive Event : Type :=
  | EModelEval
  | EModelTrain
  | EModelTo (device : string)
  | EPredict (img : Img) (d : Depth)
  | EExp (tw : Twist)
  | EGenerator (g : DepthGen)
  | EReproject (g : DepthGen) (extran : Mat) (pcd : Pcd)
  | EGeodesic (g0 igt : Mat)
  | EPhotoLoss (scale : float) (ref cand : Depth)
  | EChamferLoss (scale : float) (reduction : string) (ref cand : Pcd)
  | EZeroGrad
  | EBackward (loss : Scalar)
  | EOptimStep
  | ESchedStep
  | ECudaQuery (available : bool)
  | EDeviceFallback
  | ELoad (path : string)
  | ESave (path : string) (bundle : gmap string PyVal).

(** The [CalibNet] instance. *)
Record Model : Type := mkModel {
    m_params : Params;
    m_buffers : Buffers;
    m_training : bool;
    m_device : string;
    m_grads : Grads
  }.

Record World : Type := mkWorld {
    w_args : Args;                              (* the global [args] *)
    w_cuda : bool;                              (* torch.cuda.is_available() *)
    w_grad_enabled : bool;                      (* torch.is_grad_enabled() *)
    w_model : Model;
    w_optim : OptState;
    w_files : gmap string (gmap string PyVal);  (* what torch.load sees *)
    w_trace : list (bool * Event)               (* events, each with the grad mode it ran in *)
  }.

Definition set_args (a : Args) (w : World) : World :=
  mkWorld a (w_cuda w) (w_grad_enabled w) (w_model w) (w_optim w) (w_files w) (w_trace w).
Definition set_grad_enabled (g : bool) (w : World) : World :=
  mkWorld (w_args w) (w_cuda w) g (w_model w) (w_optim w) (w_files w) (w_trace w).
Definition set_model (m : Model) (w : World) : World :=
  mkWorld (w_args w) (w_cuda w) (w_grad_enabled w) m (w_optim w) (w_files w) (w_trace w).
Definition set_optim (o : OptState) (w : World) : World :=
  mkWorld (w_args w) (w_cuda w) (w_grad_enabled w) (w_model w) o (w_files w) (w_trace w).
Definition set_files (f : gmap string (gmap string PyVal)) (w : World) : World :=
  mkWorld (w_args w) (w_cuda w) (w_grad_enabled w) (w_model w) (w_optim w) f (w_trace w).
Definition record (e : Event) (w : World) : World :=
  mkWorld (w_args w) (w_cuda w) (w_grad_enabled w) (w_model w) (w_optim w) (w_files w)
          (w_trace w ++ [(w_grad_enabled w, e)]).

Definition set_buffers (b : Buffers) (m : Model) : Model :=
  mkModel (m_params m) b (m_training m) (m_device m) (m_grads m).
Definition set_training (t : bool) (m : Model) : Model :=
  mkModel (m_params m) (m_buffers m) t (m_device m) (m_grads m).
Definition set_model_device (d : string) (m : Model) : Model :=
  mkModel (m_params m) (m_buffers m) (m_training m) d (m_grads m).
Definition set_grads (g : Grads) (m : Model) : Model :=
  mkModel (m_params m) (m_buffers m) (m_training m) (m_device m) g.
Definition set_params (p : Params) (m : Model) : Model :=
  mkModel p (m_buffers m) (m_training m) (m_device m) (m_grads m).

(** *** The monad: state [World], exceptions [PyErr] *)
Definition M (A : Type) : Type := World -> (PyErr + A) * World.

Definition ret {A} (a : A) : M A := fun w => (inr a, w).
Definition raise {A} (e : PyErr) : M A := fun w => (inl e, w).
Definition bind {A B} (m : M A) (k : A -> M B) : M B :=
  fun w => match m w with
           | (inl e, w') => (inl e, w')
           | (inr a, w') => k a w'
           end.
Definition get : M World := fun w => (inr w, w).
Definition modify (f : World -> World) : M unit := fun w => (inr tt, f w).
Definition emit (e : Event) : M unit := modify (record e).
Definition lift_err {A} (r : PyErr + A) : M A :=
  match r with inl e => raise e | inr a => ret a end.

Local Notation "x <- c1 ;; c2" := (bind c1 (fun x => c2))
  (at level 100, c1 at next level, right associativity).
Local Notation "c1 ;; c2" := (bind c1 (fun _ => c2))
  (at level 100, right associativity).

(** [for x in xs: s = body(x, s)] and [for _ in range(n): s = body(s)] *)
Fixpoint for_each {A S} (xs : list A) (body : A -> S -> M S) (s : S) : M S :=
  match xs with
  | [] => ret s
  | x :: rest => s' <- body x s ;; for_each rest body s'
  end.

Fixpoint repeat_n {S} (n : nat) (body : S -> M S) (s : S) : M S :=
  match n with
  | O => ret s
  | S k => s' <- body s ;; repeat_n k body s'
  end.

(** [range(a, b)] *)
Definition py_range (a b : Z) : list Z :=
  map (fun i => a + Z.of_nat i) (seq 0 (Z.to_nat (b - a))).

(** [@torch.no_grad()]: gradient mode off for the call, the previous
    mode restored on the way out, also when the call raises. *)
Definition no_grad {A} (m : M A) : M A :=
  fun w => let prev := w_grad_enabled w in
           let (r, w') := m (set_grad_enabled false w) in
           (r, set_grad_enabled prev w').

(** *** Calls into the collaborators *)
Definition model_eval : M unit :=
  modify (fun w => record EModelEval (set_model (set_training false (w_model w)) w)).
Definition model_train : M unit :=
  modify (fun w => record EModelTrain (set_model (set_training true (w_model w)) w)).
Definition model_to (device : string) : M unit :=
  modify (fun w => record (EModelTo device) (set_model (set_model_device device (w_model w)) w)).

(** [model(rgb_img, depth_img)] *)
Definition call_model (rgb_img : Img) (depth_img : Depth) : M (Rot * Tsl) :=
  fun w =>
    let m := w_model w in
    let (out, bufs) := forward (m_params m) (m_buffers m) (m_training m) rgb_img depth_img in
    (inr out, record (EPredict rgb_img depth_img) (set_model (set_buffers bufs m) w)).

Definition call_exp (tw : Twist) : M Mat :=
  emit (EExp tw) ;; ret (se3_exp tw).

Definition DepthImgGenerator (shape : Shape) (InTran : Intr) (pooling : Z) : M DepthGen :=
  let g := mkDepthGen shape InTran pooling in
  emit (EGenerator g) ;; ret g.

Definition call_generator (g : DepthGen) (extran : Mat) (pcd : Pcd) : M (Depth * Pcd) :=
  emit (EReproject g extran pcd) ;;
  ret (reproject (dg_shape g) (dg_InTran g) (dg_pooling g) extran pcd).

Definition call_geodesic (g0 igt : Mat) : M (Scalar * Scalar) :=
  emit (EGeodesic g0 igt) ;; ret (geodesic_distance g0 igt).

Definition call_photo (scale : float) (ref cand : Depth) : M Scalar :=
  emit (EPhotoLoss scale ref cand) ;; ret (Photo_Loss scale ref cand).

Definition call_chamfer (scale : float) (reduction : string) (ref cand : Pcd) : M Scalar :=
  emit (EChamferLoss scale reduction ref cand) ;;
  ret (ChamferDistanceLoss scale reduction ref cand).

(** [t[0]] on a batched tensor *)
Definition index0 {A} (t : list A) : PyErr + A :=
  match t with [] => inl IndexError | x :: _ => inr x end.

(** *** [val] *)

(** One pass of the inner loop of [val] (lines 76-79).  The state is
    (uncalibed_depth_img, uncalibed_pcd, g0).  [g0.bmm(extran)] is an
    expression statement: the product is computed and dropped, and
    [g0] keeps its value. *)
Definition val_iter (rgb_img : Img) (depth_generator : DepthGen)
    (st : Depth * Pcd * Mat) : M (Depth * Pcd * Mat) :=
  let '(uncalibed_depth_img, uncalibed_pcd, g0) := st in
  tw <- call_model rgb_img uncalibed_depth_img ;;
  extran <- call_exp (cat (fst tw) (snd tw)) ;;
  dp <- call_generator depth_generator extran uncalibed_pcd ;;
  let _ := Tensor.bmm r0 radd rmul g0 extran in
  ret (fst dp, snd dp, g0).

(** The body of [for batch in val_loader] (lines 66-84), on the running
    totals (total_dR, total_dT). *)
Definition val_batch (batch : Batch) (tot : float * float) : M (float * float) :=
  let rgb_img := b_img batch in
  let B := size0 rgb_img in
  let uncalibed_pcd := b_uncalibed_pcd batch in
  let uncalibed_depth_img := b_uncalibed_depth_img batch in
  let igt := b_igt batch in
  InTran <- lift_err (index0 (b_InTran batch)) ;;
  let img_shape := shape_hw (b_img batch) in
  w <- get ;;
  depth_generator <- DepthImgGenerator img_shape InTran (a_pooling (w_args w)) ;;
  let g0 := Tensor.repeat_batch (Tensor.eye r0 r1 4) B in
  w <- get ;;
  st <- repeat_n (Z.to_nat (a_inner_iter (w_args w))) (val_iter rgb_img depth_generator)
                 (uncalibed_depth_img, uncalibed_pcd, g0) ;;
  let '(_, _, g0) := st in
  dRdT <- call_geodesic g0 igt ;;
  ret (PrimFloat.add (fst tot) (item (fst dRdT)),
       PrimFloat.add (snd tot) (item (snd dRdT))).

(** [val(model, val_loader)]; the loader is given by the batches it
    delivers, and [len(val_loader)] is their number. *)
Definition val (val_loader : list Batch) : M (float * float * float) :=
  no_grad (
    model_eval ;;
    tot <- for_each val_loader val_batch (PrimFloat.zero, PrimFloat.zero) ;;
    total_dR <- lift_err (div_by_len (fst tot) (length val_loader)) ;;
    total_dT <- lift_err (div_by_len (snd tot) (length val_loader)) ;;
    let loss_dx := PrimFloat.add total_dR total_dT in
    ret (loss_dx, total_dR, total_dT)).

(** *** [train] *)

(** One pass of the inner loop of [train] (lines 142-144), on
    (uncalibed_depth_img, uncalibed_pcd). *)
Definition train_iter (rgb_img : Img) (depth_generator : DepthGen)
    (st : Depth * Pcd) : M (Depth * Pcd) :=
  let '(uncalibed_depth_img, uncalibed_pcd) := st in
  tw <- call_model rgb_img uncalibed_depth_img ;;
  extran <- call_exp (cat (fst tw) (snd tw)) ;;
  call_generator depth_generator extran uncalibed_pcd.

Definition optimizer_zero_grad : M unit :=
  modify (fun w => let m := w_model w in
                   record EZeroGrad (set_model (set_grads (zero_grad (m_grads m)) m) w)).

Definition loss_backward (loss : Scalar) : M unit :=
  modify (fun w => let m := w_model w in
                   record (EBackward loss) (set_model (set_grads (backward loss (m_grads m)) m) w)).

Definition optimizer_step : M unit :=
  modify (fun w => let m := w_model w in
                   let (o, p) := optim_step (w_optim w) (m_params m) (m_grads m) in
                   record EOptimStep (set_optim o (set_model (set_params p m) w))).

Definition scheduler_step (s : Sched) : M Sched :=
  fun w => let (s', o) := sched_step s (w_optim w) in
           (inr s', record ESchedStep (set_optim o w)).

(** The body of [for batch in train_loader] (lines 132-154), on the
    running totals (total_loss, total_photo_loss, total_chamfer_loss).
    The progress bar is not modelled. *)
Definition train_batch (scale alpha beta : float) (batch : Batch)
    (tot : float * float * float) : M (float * float * float) :=
  let '(total_loss, total_photo_loss, total_chamfer_loss) := tot in
  optimizer_zero_grad ;;
  let rgb_img := b_img batch in
  let calibed_depth_img := b_depth_img batch in
  let calibed_pcd := b_pcd batch in
  let uncalibed_pcd := b_uncalibed_pcd batch in
  let uncalibed_depth_img := b_uncalibed_depth_img batch in
  InTran <- lift_err (index0 (b_InTran batch)) ;;
  let img_shape := shape_hw rgb_img in
  w <- get ;;
  depth_generator <- DepthImgGenerator img_shape InTran (a_pooling (w_args w)) ;;
  w <- get ;;
  st <- repeat_n (Z.to_nat (a_inner_iter (w_args w))) (train_iter rgb_img depth_generator)
                 (uncalibed_depth_img, uncalibed_pcd) ;;
  let '(uncalibed_depth_img, uncalibed_pcd) := st in
  loss1 <- call_photo scale calibed_depth_img uncalibed_depth_img ;;
  loss2 <- call_chamfer scale "sum" calibed_pcd uncalibed_pcd ;;
  let loss := sadd (smul alpha loss1) (smul beta loss2) in
  loss_backward loss ;;
  optimizer_step ;;
  ret (PrimFloat.add total_loss (item loss),
       PrimFloat.add total_photo_loss (item loss1),
       PrimFloat.add total_chamfer_loss (item loss2)).

(** [torch.save(obj, path)] and [torch.load(path)] *)
Definition torch_save (bundle : gmap string PyVal) (path : string) : M unit :=
  modify (fun w => record (ESave path bundle) (set_files (<[path := bundle]> (w_files w)) w)).

Definition torch_load (path : string) : M (gmap string PyVal) :=
  emit (ELoad path) ;;
  w <- get ;;
  match w_files w !! path with
  | Some d => ret d
  | None => raise (FileNotFoundError path)
  end.

(** [d[key]] *)
Definition dict_get (d : gmap string PyVal) (key : string) : PyErr + PyVal :=
  match d !! key with
  | Some v => inr v
  | None => inl (KeyError key)
  end.

(** [dict(model=model.state_dict(), optimizer=optimizer.state_dict(),
         min_loss=min_loss, epoch=epoch)] (lines 165-169, 172-176) *)
Definition checkpoint_dict (w : World) (min_loss : float) (epoch : Z) : gmap string PyVal :=
  <["epoch" := VInt epoch]>
    (<["min_loss" := VFloat min_loss]>
       (<["optimizer" := VOptimState (w_optim w)]>
          {["model" := VModelState (m_params (w_model w)) (m_buffers (w_model w))]})).

Definition best_path (a : Args) : string :=
  path_join (a_checkpoint_dir a) (a_checkpoint_name a +:+ "_best.pth").
Definition last_path (a : Args) : string :=
  path_join (a_checkpoint_dir a) (a_checkpoint_name a +:+ "_last.pth").

Definition save_checkpoint (path : Args -> string) (min_loss : float) (epoch : Z) : M unit :=
  w <- get ;;
  torch_save (checkpoint_dict w min_loss epoch) (path (w_args w)).

(** [load_state_dict]; a value of another kind than the script stores
    under the key is refused. *)
Definition model_load_state_dict (v : PyVal) : M unit :=
  match v with
  | VModelState p b =>
      modify (fun w => set_model (set_buffers b (set_params p (w_model w))) w)
  | _ => raise TypeError
  end.

Definition optimizer_load_state_dict (v : PyVal) : M unit :=
  match v with
  | VOptimState o => modify (set_optim o)
  | _ => raise TypeError
  end.

(** Lines 96-107: the start epoch and the best loss so far. *)
Definition resume_or_fresh : M (Z * float) :=
  w <- get ;;
  if negb (String.eqb (a_resume (w_args w)) "") then
    chkpt <- torch_load (a_resume (w_args w)) ;;
    vm <- lift_err (dict_get chkpt "model") ;;
    model_load_state_dict vm ;;
    vo <- lift_err (dict_get chkpt "optimizer") ;;
    optimizer_load_state_dict vo ;;
    ve <- lift_err (dict_get chkpt "epoch") ;;
    start_epoch <- match ve with VInt e => ret (e + 1) | _ => raise TypeError end ;;
    vl <- lift_err (dict_get chkpt "min_loss") ;;
    min_loss <- match vl with VFloat x => ret x | _ => raise TypeError end ;;
    ret (start_epoch, min_loss)
  else
    ret (0, PrimFloat.infinity).

(** [torch.cuda.is_available()] *)
Definition cuda_is_available : M bool :=
  w <- get ;;
  emit (ECudaQuery (w_cuda w)) ;;
  ret (w_cuda w).

(** Lines 108-110: the fallback to the CPU ([args.device = 'cpu']). *)
Definition device_fallback : M unit :=
  available <- cuda_is_available ;;
  if negb available then
    modify (fun w => record EDeviceFallback (set_args (set_device "cpu" (w_args w)) w))
  else ret tt.

(** One pass of [for epoch in range(start_epoch,args.epoch)] (lines
    124-178), on the scheduler and min_loss.  The loaders are given by
    the batches they deliver in that epoch; logging is not modelled. *)
Definition train_epoch (train_loader val_loader : Z -> list Batch)
    (scale alpha beta : float) (epoch : Z) (st : Sched * float) : M (Sched * float) :=
  let '(scheduler, min_loss) := st in
  model_train ;;
  let batches := train_loader epoch in
  tot <- for_each batches (train_batch scale alpha beta)
                  (PrimFloat.zero, PrimFloat.zero, PrimFloat.zero) ;;
  let '(total_loss, total_photo_loss, total_chamfer_loss) := tot in
  _ <- lift_err (div_by_len total_loss (length batches)) ;;
  _ <- lift_err (div_by_len total_photo_loss (length batches)) ;;
  _ <- lift_err (div_by_len total_chamfer_loss (length batches)) ;;
  scheduler <- scheduler_step scheduler ;;
  r <- val (val_loader epoch) ;;
  let '(loss_dx, loss_dR, loss_dT) := r in
  min_loss <- (if PrimFloat.ltb loss_dx min_loss then
                 let min_loss := loss_dx in
                 save_checkpoint best_path min_loss epoch ;;
                 ret min_loss
               else ret min_loss) ;;
  save_checkpoint last_path min_loss epoch ;;
  ret (scheduler, min_loss).

(** Lines 111-178: the model goes to the device, the scheduler and the
    losses are set up, and the epochs run. *)
Definition train_epochs (train_loader val_loader : Z -> list Batch)
    (start_epoch : Z) (min_loss : float) : M unit :=
  w <- get ;;
  let device := a_device (w_args w) in
  model_to device ;;
  scheduler <- (fun w => let (s, o) := ExponentialLR (w_optim w) (a_lr_exp_decay (w_args w)) in
                         (inr s, set_optim o w)) ;;
  w <- get ;;
  let scale := a_scale (w_args w) in
  let alpha := a_alpha (w_args w) in
  let beta := a_beta (w_args w) in
  for_each (py_range start_epoch (a_epoch (w_args w)))
           (train_epoch train_loader val_loader scale alpha beta)
           (scheduler, min_loss) ;;
  ret tt.

(** [train(args, train_loader, val_loader)] *)
Definition train (train_loader val_loader : Z -> list Batch) : M unit :=
  (* model = CalibNet(backbone_pretrained=False) *)
  modify (set_model (mkModel init_params init_buffers true "cpu" no_grads)) ;;
  (* optimizer = torch.optim.SGD(model.parameters(), lr0, momentum, weight_decay=...) *)
  modify (fun w => let a := w_args w in
                   set_optim (SGD (m_params (w_model w)) (a_lr0 a) (a_momentum a)
                                  (a_weight_decay a)) w) ;;
  sm <- resume_or_fresh ;;
  let '(start_epoch, min_loss) := sm in
  device_fallback ;;
  train_epochs train_loader val_loader start_epoch min_loss.

End Script.

Notation "x <- c1 ;; c2" := (bind c1 (fun x => c2))
  (at level 100, c1 at next level, right associativity).
Notation "c1 ;; c2" := (bind c1 (fun _ => c2))
  (at level 100, right associativity).

(** ** The entry point: the two data loaders (lines 204-209) *)

(** [True if len(dataset) % batch_size == 1 else False]; Python's [%]
    takes the sign of the divisor, as [Z.modulo] does. *)
Definition drop_last_flag (len batch_size : Z) : PyErr + bool :=
  if (batch_size =? 0)%Z then inl ZeroDivisionError
  else inr (len mod batch_size =? 1)%Z.

(** [torch.utils.data.BatchSampler.__iter__] over the indices of a
    sequential sampler; [batch] is the batch being filled. *)
Fixpoint batch_sampler (batch_size : nat) (drop_last : bool)
    (sampler : list nat) (batch : list nat) : list (list nat) :=
  match sampler with
  | [] => if andb (Nat.ltb 0 (length batch)) (negb drop_last) then [batch] else []
  | idx :: rest =>
      let batch := batch ++ [idx] in
      if Nat.eqb (length batch) batch_size
      then batch :: batch_sampler batch_size drop_last rest []
      else batch_sampler batch_size drop_last rest batch
  end.

(** [DataLoader(dataset, batch_size, shuffle=False, drop_last=...)]: the
    batches of dataset indices it delivers in one pass. *)
Definition DataLoader (len batch_size : Z) (drop_last : bool) : PyErr + list (list nat) :=
  if (batch_size <=? 0)%Z then inl ValueError
  else inr (batch_sampler (Z.to_nat batch_size) drop_last (seq 0 (Z.to_nat len)) []).

(** Lines 205 and 208 (206 and 209 for validation). *)
Definition main_loader (len batch_size : Z) : PyErr + list (list nat) :=
  match drop_last_flag len batch_size with
  | inl e => inl e
  | inr drop_last => DataLoader len batch_size drop_last
  end.

(** ** The entry point: the names of the sequences (lines 190-191) *)

(** [s.rjust(width, fillchar)] *)
Fixpoint replicate_char (n : nat) (c : ascii) : string :=
  match n with
  | O => EmptyString
  | S k => String c (replicate_char k c)
  end.

Definition rjust (width : nat) (fillchar : ascii) (s : string) : string :=
  if Nat.leb width (String.length s) then s
  else replicate_char (width - String.length s) fillchar +:+ s.

(** [str(index).rjust(2,'0')] for an integer index of the config;
    [pretty] is the decimal numeral of an integer, as [str] gives it. *)
Definition split_name (index : Z) : string := rjust 2 "0" (pretty index).

(** [[str(index).rjust(2,'0') for index in CONFIG['dataset'][...]]] *)
Definition split_names (indices : list Z) : list string := map split_name indices.

(** The decimal digits other than 0. *)
Definition nonzero_digit (c : ascii) : Prop :=
  In c ["1"; "2"; "3"; "4"; "5"; "6"; "7"; "8"; "9"]%char.

(** ** Observations on a run *)
Section Observations.
Context `{C : Collab}.

(** The events a computation added to the trace. *)
Definition new_events (w w' : World) : list (bool * Event) :=
  skipn (length (w_trace w)) (w_trace w').

Inductive Kind : Type :=
  | KModelEval | KModelTrain | KModelTo | KPredict | KExp | KGenerator
  | KReproject | KGeodesic | KPhotoLoss | KChamferLoss | KZeroGrad
  | KBackward | KOptimStep | KSchedStep | KCudaQuery | KDeviceFallback
  | KLoad | KSave.

Definition kind_of (e : Event) : Kind :=
  match e with
  | EModelEval => KModelEval
  | EModelTrain => KModelTrain
  | EModelTo _ => KModelTo
  | EPredict _ _ => KPredict
  | EExp _ => KExp
  | EGenerator _ => KGenerator
  | EReproject _ _ _ => KReproject
  | EGeodesic _ _ => KGeodesic
  | EPhotoLoss _ _ _ => KPhotoLoss
  | EChamferLoss _ _ _ _ => KChamferLoss
  | EZeroGrad => KZeroGrad
  | EBackward _ => KBackward
  | EOptimStep => KOptimStep
  | ESchedStep => KSchedStep
  | ECudaQuery _ => KCudaQuery
  | EDeviceFallback => KDeviceFallback
  | ELoad _ => KLoad
  | ESave _ _ => KSave
  end.

Definition Kind_eqb (a b : Kind) : bool :=
  match a, b with
  | KModelEval, KModelEval | KModelTrain, KModelTrain | KModelTo, KModelTo
  | KPredict, KPredict | KExp, KExp | KGenerator, KGenerator
  | KReproject, KReproject | KGeodesic, KGeodesic | KPhotoLoss, KPhotoLoss
  | KChamferLoss, KChamferLoss | KZeroGrad, KZeroGrad | KBackward, KBackward
  | KOptimStep, KOptimStep | KSchedStep, KSchedStep | KCudaQuery, KCudaQuery
  | KDeviceFallback, KDeviceFallback | KLoad, KLoad | KSave, KSave => true
  | _, _ => false
  end.

(** The kinds of the events of one inner iteration, in order. *)
Definition iteration_kinds : list Kind := [KPredict; KExp; KReproject].

(** The device decision. *)
Definition is_decision (e : Event) : bool :=
  match e with ECudaQuery _ | EDeviceFallback => true | _ => false end.

(** Events that change the parameters, the gradients or the optimizer. *)
Definition is_update (e : Event) : bool :=
  match e with
  | EZeroGrad | EBackward _ | EOptimStep | ESchedStep => true
  | _ => false
  end.

Definition is_save (e : Event) : bool :=
  match e with ESave _ _ => true | _ => false end.

(** The intrinsics behind an event of the depth-image generator. *)
Definition generator_of (e : Event) : option DepthGen :=
  match e with
  | EGenerator g | EReproject g _ _ => Some g
  | _ => None
  end.

(** The incremental transforms of a run, in order: the [extran] of each
    call of the depth-image generator. *)
Definition increments (evs : list Event) : list Mat :=
  flat_map (fun e => match e with EReproject _ t _ => [t] | _ => [] end) evs.

(** [accumulated = accumulated . incremental] over the increments, from [g]. *)
Definition compose_right (g : Mat) (ts : list Mat) : Mat :=
  fold_left (Tensor.bmm r0 radd rmul) ts g.

(** The refinement of one batch as a function: [n] iterations from the
    working depth image, point cloud and network buffers [s], with the
    calls they make.  The parameters [p] and the training flag [tr] do
    not change on the way. *)
Fixpoint trajectory (p : Params) (tr : bool) (rgb_img : Img) (g : DepthGen)
    (n : nat) (s : Depth * Pcd * Buffers) : list Event * (Depth * Pcd * Buffers) :=
  match n with
  | O => ([], s)
  | S k =>
      let '(d, pcd, b) := s in
      let (tw, b') := forward p b tr rgb_img d in
      let twist := cat (fst tw) (snd tw) in
      let extran := se3_exp twist in
      let dp := reproject (dg_shape g) (dg_InTran g) (dg_pooling g) extran pcd in
      let (evs, s') := trajectory p tr rgb_img g k (fst dp, snd dp, b') in
      (EPredict rgb_img d :: EExp twist :: EReproject g extran pcd :: evs, s')
  end.

(** The world after a stretch of the inner loop: new buffers, more events. *)
Definition advance (b : Buffers) (evs : list Event) (w : World) : World :=
  mkWorld (w_args w) (w_cuda w) (w_grad_enabled w)
          (set_buffers b (w_model w)) (w_optim w) (w_files w)
          (w_trace w ++ map (pair (w_grad_enabled w)) evs).

(** The refinement of a batch as [val] and [train] run it: from the
    uncalibrated depth image and point cloud, under the generator built
    from the first intrinsics of the batch. *)
Definition batch_generator (batch : Batch) (K : Intr) (w : World) : DepthGen :=
  mkDepthGen (shape_hw (b_img batch)) K (a_pooling (w_args w)).

Definition batch_trajectory (batch : Batch) (K : Intr) (w : World)
  : list Event * (Depth * Pcd * Buffers) :=
  trajectory (m_params (w_model w)) (m_training (w_model w)) (b_img batch)
             (batch_generator batch K w) (Z.to_nat (a_inner_iter (w_args w)))
             (b_uncalibed_depth_img batch, b_uncalibed_pcd batch, m_buffers (w_model w)).

Definition identity_transform (batch : Batch) : Mat :=
  Tensor.repeat_batch (Tensor.eye r0 r1 4) (size0 (b_img batch)).

(** The two losses on the outcome [s] of a batch's refinement, and their
    weighted sum (lines 145-147). *)
Definition loss1_of (scale : float) (batch : Batch) (s : Depth * Pcd * Buffers) : Scalar :=
  Photo_Loss scale (b_depth_img batch) (fst (fst s)).

Definition loss2_of (scale : float) (batch : Batch) (s : Depth * Pcd * Buffers) : Scalar :=
  ChamferDistanceLoss scale "sum" (b_pcd batch) (snd (fst s)).

Definition loss_of (scale alpha beta : float) (batch : Batch)
    (s : Depth * Pcd * Buffers) : Scalar :=
  sadd (smul alpha (loss1_of scale batch s)) (smul beta (loss2_of scale batch s)).

(** The events of one training batch. *)
Definition train_batch_events (scale alpha beta : float) (batch : Batch) (K : Intr)
    (w : World) : list Event :=
  let tr := batch_trajectory batch K w in
  [EZeroGrad; EGenerator (batch_generator batch K w)] ++ fst tr ++
  [EPhotoLoss scale (b_depth_img batch) (fst (fst (snd tr)));
   EChamferLoss scale "sum" (b_pcd batch) (snd (fst (snd tr)));
   EBackward (loss_of scale alpha beta batch (snd tr));
   EOptimStep].

(** The events of one validation batch. *)
Definition val_batch_events (batch : Batch) (K : Intr) (w : World) : list Event :=
  EGenerator (batch_generator batch K w) :: fst (batch_trajectory batch K w) ++
  [EGeodesic (identity_transform batch) (b_igt batch)].

(** The world after one training batch. *)
Definition after_train_batch (scale alpha beta : float) (batch : Batch) (K : Intr)
    (w : World) : World :=
  let tr := batch_trajectory batch K w in
  let m := w_model w in
  let grads := backward (loss_of scale alpha beta batch (snd tr)) (zero_grad (m_grads m)) in
  let op := optim_step (w_optim w) (m_params m) grads in
  mkWorld (w_args w) (w_cuda w) (w_grad_enabled w)
          (mkModel (snd op) (snd (snd tr)) (m_training m) (m_device m) grads)
          (fst op) (w_files w)
          (w_trace w ++ map (pair (w_grad_enabled w)) (train_batch_events scale alpha beta batch K w)).

(** [batch] with another tensor of intrinsics. *)
Definition set_InTran (ks : list Intr) (b : Batch) : Batch :=
  mkBatch (b_img b) (b_depth_img b) (b_pcd b) (b_uncalibed_pcd b)
          (b_uncalibed_depth_img b) (b_igt b) ks.

(** How many events of a kind a stretch of the trace holds. *)
Definition count_kind (k : Kind) (evs : list Event) : nat :=
  length (List.filter (fun e => Kind_eqb (kind_of e) k) evs).

(** [refines rgb g s evs s']: the events [evs] are inner iterations, one
    after the other, that lead from the working depth image and point
    cloud [s] to [s']; each iteration reprojects the point cloud the
    previous one left, under the exponential map of the twist it has
    just been given. *)
Inductive refines (rgb_img : Img) (g : DepthGen)
    : Depth * Pcd -> list Event -> Depth * Pcd -> Prop :=
  | refines_done s : refines rgb_img g s [] s
  | refines_iter d pcd twist evs s' :
      refines rgb_img g
              (reproject (dg_shape g) (dg_InTran g) (dg_pooling g) (se3_exp twist) pcd)
              evs s' ->
      refines rgb_img g (d, pcd)
              (EPredict rgb_img d :: EExp twist :: EReproject g (se3_exp twist) pcd :: evs)
              s'.

(** ** A logic of traces

    [steps I WF m]: from a world in [I], [m] ends (normally or with an
    exception) in a world in [I], and the events it added satisfy [WF].
    [WF] is a property of stretches of a trace that holds of the empty
    stretch and of the concatenation of two stretches that have it. *)
Class TraceProp (WF : list (bool * Event) -> Prop) : Prop := {
    wf_nil : WF [];
    wf_app : forall a b, WF a -> WF b -> WF (a ++ b)
  }.

Record steps {A} (I : World -> Prop) (WF : list (bool * Event) -> Prop)
      (m : M A) : Prop := Steps {
    steps_run : forall w, I w ->
      I (snd (m w)) /\ exists evs, w_trace (snd (m w)) = w_trace w ++ evs /\ WF evs
  }.

(** One epoch in two stretches: the work (training batches, scheduler,
    validation), which yields the scheduler and [loss_dx], and the
    checkpoints (lines 163-177). *)
Definition epoch_work (train_loader val_loader : Z -> list Batch)
    (scale alpha beta : float) (epoch : Z) (scheduler : Sched) : M (Sched * float) :=
  model_train ;;
  let batches := train_loader epoch in
  tot <- for_each batches (train_batch scale alpha beta)
                  (PrimFloat.zero, PrimFloat.zero, PrimFloat.zero) ;;
  let '(total_loss, total_photo_loss, total_chamfer_loss) := tot in
  _ <- lift_err (div_by_len total_loss (length batches)) ;;
  _ <- lift_err (div_by_len total_photo_loss (length batches)) ;;
  _ <- lift_err (div_by_len total_chamfer_loss (length batches)) ;;
  scheduler <- scheduler_step scheduler ;;
  r <- val (val_loader epoch) ;;
  ret (scheduler, fst (fst r)).

Definition epoch_saves (epoch : Z) (min_loss : float) (st : Sched * float)
  : M (Sched * float) :=
  let '(scheduler, loss_dx) := st in
  min_loss <- (if PrimFloat.ltb loss_dx min_loss then
                 let min_loss := loss_dx in
                 save_checkpoint best_path min_loss epoch ;;
                 ret min_loss
               else ret min_loss) ;;
  save_checkpoint last_path min_loss epoch ;;
  ret (scheduler, min_loss).

(** The world after [save_checkpoint path min_loss epoch]. *)
Definition saved (path : Args -> string) (min_loss : float) (epoch : Z) (w : World) : World :=
  let bundle := checkpoint_dict w min_loss epoch in
  record (ESave (path (w_args w)) bundle)
         (set_files (<[path (w_args w) := bundle]> (w_files w)) w).

(** What the work of an epoch keeps fixed, and the events it does not make. *)
Definition env_fixed (w0 w : World) : Prop :=
  w_args w = w_args w0 /\ w_files w = w_files w0 /\ w_cuda w = w_cuda w0.

Definition quiet_event (e : bool * Event) : Prop :=
  is_save (snd e) = false /\ is_decision (snd e) = false /\ kind_of (snd e) <> KLoad.

(** What the epochs keep fixed. *)
Definition args_fixed (w0 w : World) : Prop :=
  w_args w = w_args w0 /\ w_cuda w = w_cuda w0.

(** What resuming keeps fixed, and the only events it makes. *)
Definition cuda_fixed (w0 w : World) : Prop := w_cuda w = w_cuda w0.

Definition load_event (e : bool * Event) : Prop := kind_of (snd e) = KLoad.

(** The world after [device_fallback]. *)
Definition after_fallback (w : World) : World :=
  let w1 := record (ECudaQuery (w_cuda w)) w in
  if w_cuda w then w1
  else record EDeviceFallback (set_args (set_device "cpu" (w_args w1)) w1).

Definition no_decision (e : bool * Event) : Prop := is_decision (snd e) = false.

(** [justified scale alpha beta evs]: every backward pass in [evs] is on
    [alpha] times the photometric loss plus [beta] times the chamfer
    loss that the two events just before it computed, both with [scale]
    and the chamfer loss with the ['sum'] reduction. *)
Inductive justified (scale alpha beta : float) : list Event -> Prop :=
  | justified_nil : justified scale alpha beta []
  | justified_other e evs :
      kind_of e <> KBackward ->
      justified scale alpha beta evs ->
      justified scale alpha beta (e :: evs)
  | justified_loss ref1 cand1 ref2 cand2 evs :
      justified scale alpha beta evs ->
      justified scale alpha beta
        (EPhotoLoss scale ref1 cand1 ::
         EChamferLoss scale "sum" ref2 cand2 ::
         EBackward (sadd (smul alpha (Photo_Loss scale ref1 cand1))
                         (smul beta (ChamferDistanceLoss scale "sum" ref2 cand2))) ::
         evs).

Definition justified_trace (scale alpha beta : float) (evs : list (bool * Event)) : Prop :=
  justified scale alpha beta (map snd evs).

(** The loss settings of [args] are those of the world [w0]. *)
Definition loss_args_fixed (w0 w : World) : Prop :=
  a_scale (w_args w) = a_scale (w_args w0) /\
  a_alpha (w_args w) = a_alpha (w_args w0) /\
  a_beta (w_args w) = a_beta (w_args w0).

(** What [val] keeps fixed while it runs with gradients off. *)
Definition val_frame (w0 : World) (w : World) : Prop :=
  m_params (w_model w) = m_params (w_model w0) /\
  m_grads (w_model w) = m_grads (w_model w0) /\
  m_device (w_model w) = m_device (w_model w0) /\
  w_optim w = w_optim w0 /\
  w_files w = w_files w0 /\
  w_args w = w_args w0 /\
  w_cuda w = w_cuda w0 /\
  w_grad_enabled w = false.

(** An event recorded with gradients off that is no update of the
    parameters, the gradients or the optimizer, and no write. *)
Definition read_only_event (e : bool * Event) : Prop :=
  fst e = false /\ is_update (snd e) = false /\ is_save (snd e) = false.





(** The checkpoint directory and name are those of [w0], and no file
    but the two checkpoints differs from the files of [w0]. *)
Definition only_checkpoints_written (w0 w : World) : Prop :=
  a_checkpoint_dir (w_args w) = a_checkpoint_dir (w_args w0) /\
  a_checkpoint_name (w_args w) = a_checkpoint_name (w_args w0) /\
  forall path, path <> best_path (w_args w0) -> path <> last_path (w_args w0) ->
               w_files w !! path = w_files w0 !! path.

Definition any_event (e : bool * Event) : Prop := True.

(** The kinds of the events of one training batch with [n] inner
    iterations, of one validation batch, and of one epoch that saves the
    [_best] checkpoint or not. *)
Definition train_batch_kinds (n : nat) : list Kind :=
  [KZeroGrad; KGenerator] ++ concat (repeat iteration_kinds n) ++
  [KPhotoLoss; KChamferLoss; KBackward; KOptimStep].

Definition val_batch_kinds (n : nat) : list Kind :=
  KGenerator :: concat (repeat iteration_kinds n) ++ [KGeodesic].

Definition epoch_kinds (n train_batches val_batches : nat) (best : bool) : list Kind :=
  KModelTrain :: concat (repeat (train_batch_kinds n) train_batches) ++
  [KSchedStep; KModelEval] ++ concat (repeat (val_batch_kinds n) val_batches) ++
  (if best then [KSave] else []) ++ [KSave].

Definition kinds_of (evs : list (bool * Event)) : list Kind := map kind_of (map snd evs).

(** The network sits on device [d]. *)
Definition on_device (d : string) (w : World) : Prop := m_device (w_model w) = d.

End Observations.

Arguments steps_run {C A I WF m} _ w _.

(** ** A laboratory instance

    Integer tensors: a point cloud holds one coordinate per batch
    element, the network predicts a translation equal to its parameter,
    the exponential map of a twist is the translation by it and the
    reprojector moves the points. *)
Module Lab.

Definition z_to_float (z : Z) : float := PrimFloat.of_uint63 (Uint63.of_Z z).

Definition shift_x (t : Z) : @Tensor.mat Z :=
  [[1; 0; 0; t]; [0; 1; 0; 0]; [0; 0; 1; 0]; [0; 0; 0; 1]].

Definition shift_of (m : @Tensor.mat Z) : Z := nth 3 (nth 0 m []) 0.

Definition l1 (u v : list Z) : Z :=
  fold_left Z.add (zip_with (fun a b => Z.abs (a - b)) u v) 0.

Definition lab : Collab := {|
    Img := nat; Depth := list Z; Pcd := list Z; Rot := list Z; Tsl := list Z;
    Twist := list (Z * Z); Intr := Z; Shape := unit; Scalar := float; R := Z;
    Params := Z; Buffers := nat; Grads := Z; OptState := Z; Sched := nat;
    r0 := 0; r1 := 1; radd := Z.add; rmul := Z.mul;
    size0 := fun B => B;
    shape_hw := fun _ => tt;
    cat := fun r t => combine r t;
    item := fun x => x;
    smul := PrimFloat.mul;
    sadd := PrimFloat.add;
    init_params := 1;
    init_buffers := 0%nat;
    no_grads := 0;
    forward := fun p b tr B _ => ((repeat 0 B, repeat p B), if tr then S b else b);
    se3_exp := fun tw => map (fun rt => shift_x (snd rt)) tw;
    reproject := fun _ K _ T pcd =>
      let pcd' := zip_with (fun m x => x + shift_of m) T pcd in
      (map (Z.mul K) pcd', pcd');
    Photo_Loss := fun scale ref cand => PrimFloat.mul scale (z_to_float (l1 ref cand));
    ChamferDistanceLoss := fun scale _ ref cand => PrimFloat.mul scale (z_to_float (l1 ref cand));
    geodesic_distance := fun g0 igt =>
      (PrimFloat.zero, z_to_float (l1 (map shift_of g0) (map shift_of igt)));
    zero_grad := fun _ => 0;
    backward := fun _ g => g + 1;
    SGD := fun _ _ _ _ => 0;
    optim_step := fun o p g => (o + 1, p - g);
    ExponentialLR := fun o _ => (0%nat, o);
    sched_step := fun s o => (S s, o)
  |}.

Definition args : Args :=
  mkArgs 2 "cuda:0" "" 2 "checkpoint/" "model"
         0.125%float 0.5%float 0.25%float 0.5%float
         50%float 3 1%float 0.25%float 5.

(** Two samples, miscalibrated by -3 along x.  The first camera has
    focal length 2; the entry of the second sample differs, to tell the
    first from the rest. *)
Definition batch : Batch (C := lab) :=
  mkBatch (C := lab) 2%nat [20; 40] [10; 20] [7; 17] [14; 34]
          [shift_x 3; shift_x 3] [2; 9].

Definition model0 : Model (C := lab) := mkModel (C := lab) 1 0%nat true "cpu" 0.

Definition world (cuda : bool) : World (C := lab) :=
  mkWorld (C := lab) args cuda true model0 0 ∅ [].

Definition loader (epoch : Z) : list (Batch (C := lab)) := [batch].


Definition resume_args : Args :=
  mkArgs 2 "cuda:0" "checkpoint/model_last.pth" 5 "checkpoint/" "model"
         0.125%float 0.5%float 0.25%float 0.5%float
         50%float 3 1%float 0.25%float 5.


End Lab.

(** * Properties *)
Section Properties.
Context `{C : Collab}.

(** ** Running a computation *)

(** Worlds are compared field by field once their setters are unfolded
    (by value: a setter copies every other field of its argument). *)
Ltac world_simpl :=
  cbv beta iota delta
    [record set_args set_grad_enabled set_model set_optim set_files
     set_buffers set_training set_model_device set_grads set_params advance
     w_args w_cuda w_grad_enabled w_model w_optim w_files w_trace
     m_params m_buffers m_training m_device m_grads].

Lemma bind_inr {A B} (m : M A) (k : A -> M B) w a w' :
  m w = (inr a, w') -> bind m k w = k a w'.
Proof. intros E. unfold bind. now rewrite E. Qed.

Lemma bind_inl {A B} (m : M A) (k : A -> M B) w e w' :
  m w = (inl e, w') -> bind m k w = (inl e, w').
Proof. intros E. unfold bind. now rewrite E. Qed.

Lemma advance_nil w : advance (m_buffers (w_model w)) [] w = w.
Proof.
  destruct w as [a c g [p b t d gr] o f tr]. unfold advance, set_buffers. simpl.
  now rewrite app_nil_r.
Qed.

Lemma advance_advance b1 b2 evs1 evs2 w :
  advance b2 evs2 (advance b1 evs1 w) = advance b2 (evs1 ++ evs2) w.
Proof.
  unfold advance, set_buffers. simpl. now rewrite map_app, app_assoc.
Qed.

Lemma new_events_app w w' evs :
  w_trace w' = w_trace w ++ evs -> new_events w w' = evs.
Proof.
  intros E. unfold new_events. rewrite E. apply drop_app_length.
Qed.

Lemma new_events_advance b evs w :
  new_events w (advance b evs w) = map (pair (w_grad_enabled w)) evs.
Proof. now apply new_events_app. Qed.

(** One iteration of either inner loop: the network on the working depth
    image, the exponential map of its twist, the reprojection of the
    working point cloud under that transform. *)
Lemma train_iter_run rgb g d pcd w tw b :
  forward (m_params (w_model w)) (m_buffers (w_model w)) (m_training (w_model w)) rgb d = (tw, b) ->
  let twist := cat (fst tw) (snd tw) in
  let extran := se3_exp twist in
  train_iter rgb g (d, pcd) w =
    (inr (reproject (dg_shape g) (dg_InTran g) (dg_pooling g) extran pcd),
     advance b [EPredict rgb d; EExp twist; EReproject g extran pcd] w).
Proof.
  intros E. unfold train_iter, bind, call_model, call_exp, call_generator, emit, modify, bind, ret.
  rewrite E. cbn. unfold advance, record, set_model. cbn.
  now rewrite <- !app_assoc.
Qed.

Lemma val_iter_run rgb g d pcd g0 w tw b :
  forward (m_params (w_model w)) (m_buffers (w_model w)) (m_training (w_model w)) rgb d = (tw, b) ->
  let twist := cat (fst tw) (snd tw) in
  let extran := se3_exp twist in
  let dp := reproject (dg_shape g) (dg_InTran g) (dg_pooling g) extran pcd in
  val_iter rgb g (d, pcd, g0) w =
    (inr (fst dp, snd dp, g0),
     advance b [EPredict rgb d; EExp twist; EReproject g extran pcd] w).
Proof.
  intros E. unfold val_iter, bind, call_model, call_exp, call_generator, emit, modify, bind, ret.
  rewrite E. cbn. unfold advance, record, set_model. cbn.
  now rewrite <- !app_assoc.
Qed.

(** The inner loops follow [trajectory]. *)
Lemma train_loop_run n : forall rgb g d pcd w,
  repeat_n n (train_iter rgb g) (d, pcd) w =
    (let '(evs, (d', pcd', b')) :=
       trajectory (m_params (w_model w)) (m_training (w_model w)) rgb g n
                  (d, pcd, m_buffers (w_model w)) in
     (inr (d', pcd'), advance b' evs w)).
Proof.
  induction n as [|n IH]; intros rgb g d pcd w.
  - cbn. now rewrite advance_nil.
  - cbn [repeat_n trajectory].
    destruct (forward _ _ _ rgb d) as [tw b] eqn:E.
    erewrite bind_inr by (apply train_iter_run; exact E).
    destruct (reproject _ _ _ _ pcd) as [d1 pcd1] eqn:Er.
    rewrite IH. cbn.
    destruct (trajectory _ _ rgb g n _) as [evs [[d' pcd'] b']].
    now rewrite advance_advance.
Qed.

Lemma val_loop_run n : forall rgb g d pcd g0 w,
  repeat_n n (val_iter rgb g) (d, pcd, g0) w =
    (let '(evs, (d', pcd', b')) :=
       trajectory (m_params (w_model w)) (m_training (w_model w)) rgb g n
                  (d, pcd, m_buffers (w_model w)) in
     (inr (d', pcd', g0), advance b' evs w)).
Proof.
  induction n as [|n IH]; intros rgb g d pcd g0 w.
  - cbn. now rewrite advance_nil.
  - cbn [repeat_n trajectory].
    destruct (forward _ _ _ rgb d) as [tw b] eqn:E.
    erewrite bind_inr by (apply val_iter_run; exact E).
    rewrite IH. cbn.
    destruct (trajectory _ _ rgb g n _) as [evs [[d' pcd'] b']].
    now rewrite advance_advance.
Qed.

Lemma record_as_advance e w :
  record e w = advance (m_buffers (w_model w)) [e] w.
Proof.
  destruct w as [a c g [p b t d gr] o f tr]. reflexivity.
Qed.

Lemma val_batch_run batch tot w K :
  index0 (b_InTran batch) = inr K ->
  let tr := batch_trajectory batch K w in
  let g0 := identity_transform batch in
  let dRdT := geodesic_distance g0 (b_igt batch) in
  val_batch batch tot w =
    (inr (PrimFloat.add (fst tot) (item (fst dRdT)),
          PrimFloat.add (snd tot) (item (snd dRdT))),
     advance (snd (snd tr))
             (EGenerator (batch_generator batch K w) :: fst tr ++ [EGeodesic g0 (b_igt batch)]) w).
Proof.
  intros HK. unfold val_batch. rewrite HK.
  unfold batch_trajectory, batch_generator, identity_transform.
  unfold lift_err, DepthImgGenerator, call_geodesic, emit, modify, get, bind at 1 2 3 4 5, ret.
  cbn beta iota.
  unfold bind at 1. rewrite val_loop_run. cbn [w_model w_args record].
  destruct (trajectory _ _ _ _ _ _) as [evs [[d' pcd'] b']].
  cbn. rewrite !record_as_advance, !advance_advance. reflexivity.
Qed.

Lemma train_batch_run scale alpha beta batch tot w K :
  index0 (b_InTran batch) = inr K ->
  let s := snd (batch_trajectory batch K w) in
  train_batch scale alpha beta batch tot w =
    (inr (PrimFloat.add (fst (fst tot)) (item (loss_of scale alpha beta batch s)),
          PrimFloat.add (snd (fst tot)) (item (loss1_of scale batch s)),
          PrimFloat.add (snd tot) (item (loss2_of scale batch s))),
     after_train_batch scale alpha beta batch K w).
Proof.
  intros HK. destruct tot as [[tl tp] tc]. unfold train_batch. rewrite HK.
  unfold after_train_batch, train_batch_events, loss_of, loss1_of, loss2_of,
    batch_trajectory, batch_generator.
  unfold optimizer_zero_grad, lift_err, DepthImgGenerator, emit, modify, get,
    bind at 1 2 3 4 5 6, ret.
  cbn beta iota.
  unfold bind at 1. rewrite train_loop_run. cbn [w_model w_args record set_model m_params m_training m_buffers set_grads].
  destruct (trajectory _ _ _ _ _ _) as [evs [[d' pcd'] b']].
  unfold call_photo, call_chamfer, loss_backward, optimizer_step, emit, modify, bind, ret.
  cbn beta iota.
  destruct w as [a c ge [p b t dv gr] o f tr]. world_simpl.
  destruct (optim_step _ _ _) as [o' p']. world_simpl. cbn [fst snd].
  rewrite !map_app. cbn [map app]. rewrite <- !app_assoc. reflexivity.
Qed.

(** ** The refinement of one batch *)

Lemma map_snd_pair {A B} (a : A) (l : list B) : map snd (map (pair a) l) = l.
Proof. induction l as [|x l IH]; cbn; [reflexivity | now rewrite IH]. Qed.

Lemma count_kind_cons k e evs :
  count_kind k (e :: evs) =
    ((if Kind_eqb (kind_of e) k then 1 else 0) + count_kind k evs)%nat.
Proof. unfold count_kind. cbn. now destruct (Kind_eqb (kind_of e) k). Qed.

Lemma count_kind_app k evs1 evs2 :
  count_kind k (evs1 ++ evs2) = (count_kind k evs1 + count_kind k evs2)%nat.
Proof. unfold count_kind. now rewrite List.filter_app, List.length_app. Qed.

Ltac count_events H :=
  cbn [app]; rewrite ?count_kind_cons, ?count_kind_app, ?count_kind_cons, ?H; cbn; lia.

Lemma trajectory_kinds p tr rgb g n : forall s,
  map kind_of (fst (trajectory p tr rgb g n s)) = concat (repeat iteration_kinds n).
Proof.
  induction n as [|n IH]; intros [[d pcd] b]; cbn [trajectory].
  - reflexivity.
  - destruct (forward p b tr rgb d) as [tw b'].
    match goal with |- context [trajectory p tr rgb g n ?s1] => specialize (IH s1) end.
    destruct (trajectory p tr rgb g n _) as [evs s']. cbn in *. now rewrite IH.
Qed.

Lemma trajectory_count k p tr rgb g n : forall s,
  count_kind k (fst (trajectory p tr rgb g n s)) =
    (n * length (List.filter (fun k' => Kind_eqb k' k) iteration_kinds))%nat.
Proof.
  induction n as [|n IH]; intros [[d pcd] b]; cbn [trajectory].
  - reflexivity.
  - destruct (forward p b tr rgb d) as [tw b'].
    match goal with |- context [trajectory p tr rgb g n ?s1] => specialize (IH s1) end.
    destruct (trajectory p tr rgb g n _) as [evs s']. unfold count_kind in *. cbn in *.
    destruct k; cbn in *; rewrite IH; lia.
Qed.

Lemma trajectory_refines p tr rgb g n : forall d pcd b,
  refines rgb g (d, pcd) (fst (trajectory p tr rgb g n (d, pcd, b)))
          (fst (snd (trajectory p tr rgb g n (d, pcd, b)))).
Proof.
  induction n as [|n IH]; intros d pcd b; cbn [trajectory].
  - constructor.
  - destruct (forward p b tr rgb d) as [tw b'].
    destruct (reproject _ _ _ _ pcd) as [d1 pcd1] eqn:Er. cbn [fst snd].
    specialize (IH d1 pcd1 b').
    destruct (trajectory p tr rgb g n _) as [evs s']. cbn [fst snd] in *.
    constructor. now rewrite Er.
Qed.

Lemma trajectory_generators p tr rgb g n : forall s,
  Forall (fun e => forall g', generator_of e = Some g' -> g' = g)
         (fst (trajectory p tr rgb g n s)).
Proof.
  induction n as [|n IH]; intros [[d pcd] b]; cbn [trajectory].
  - constructor.
  - destruct (forward p b tr rgb d) as [tw b'].
    match goal with |- context [trajectory p tr rgb g n ?s1] => specialize (IH s1) end.
    destruct (trajectory p tr rgb g n _) as [evs s']. cbn [fst] in *.
    repeat constructor; cbn; congruence.
Qed.

(** After at least one iteration, the working depth image and point
    cloud are what the last reprojection returned. *)
Lemma trajectory_last p tr rgb g n : forall s,
  n <> O ->
  exists evs extran pcd,
    fst (trajectory p tr rgb g n s) = evs ++ [EReproject g extran pcd] /\
    fst (snd (trajectory p tr rgb g n s)) =
      reproject (dg_shape g) (dg_InTran g) (dg_pooling g) extran pcd.
Proof.
  induction n as [|n IH]; intros [[d pcd] b] Hn; [congruence|].
  cbn [trajectory]. destruct (forward p b tr rgb d) as [tw b'].
  destruct n as [|n].
  - cbn. exists [EPredict rgb d; EExp (cat (fst tw) (snd tw))]. eexists. eexists.
    split; [reflexivity|]. now destruct (reproject _ _ _ _ pcd).
  - match goal with |- context [trajectory p tr rgb g (S n) ?s1] =>
      destruct (IH s1 ltac:(congruence)) as [evs [T [q [E1 E2]]]] end.
    destruct (trajectory p tr rgb g (S n) _) as [evs' s']. cbn [fst snd] in *.
    subst evs'. eexists (_ :: _ :: _ :: evs), T, q. split; [reflexivity | exact E2].
Qed.

(** What the lemmas above say of the refinement of a batch. *)
Lemma batch_trajectory_facts batch K w :
  let g := batch_generator batch K w in
  let n := Z.to_nat (a_inner_iter (w_args w)) in
  let tr := batch_trajectory batch K w in
  map kind_of (fst tr) = concat (repeat iteration_kinds n) /\
  (forall k, count_kind k (fst tr) =
             (n * length (List.filter (fun k' => Kind_eqb k' k) iteration_kinds))%nat) /\
  refines (b_img batch) g (b_uncalibed_depth_img batch, b_uncalibed_pcd batch)
          (fst tr) (fst (snd tr)) /\
  Forall (fun e => forall g', generator_of e = Some g' -> g' = g) (fst tr) /\
  (n <> O -> exists evs extran pcd,
      fst tr = evs ++ [EReproject g extran pcd] /\
      fst (snd tr) = reproject (dg_shape g) (dg_InTran g) (dg_pooling g) extran pcd) /\
  (n = O -> fst (snd tr) = (b_uncalibed_depth_img batch, b_uncalibed_pcd batch)).
Proof.
  unfold batch_trajectory. cbv zeta.
  split; [apply trajectory_kinds|].
  split; [intros k; apply trajectory_count|].
  split; [apply trajectory_refines|].
  split; [apply trajectory_generators|].
  split; [apply trajectory_last|].
  intros H0. now rewrite H0.
Qed.

Lemma val_batch_new_events batch tot w K :
  index0 (b_InTran batch) = inr K ->
  map snd (new_events w (snd (val_batch batch tot w))) = val_batch_events batch K w.
Proof.
  intros HK. rewrite (val_batch_run batch tot w K HK). cbn [snd].
  now rewrite new_events_advance, map_snd_pair.
Qed.

Lemma train_batch_new_events scale alpha beta batch tot w K :
  index0 (b_InTran batch) = inr K ->
  map snd (new_events w (snd (train_batch scale alpha beta batch tot w))) =
    train_batch_events scale alpha beta batch K w.
Proof.
  intros HK. rewrite (train_batch_run scale alpha beta batch tot w K HK). cbn [snd].
  unfold after_train_batch.
  erewrite new_events_app by (cbn [w_trace]; reflexivity).
  apply map_snd_pair.
Qed.

(** ** The rules of the logic of traces *)

#[local] Instance Forall_TraceProp (Q : bool * Event -> Prop) : TraceProp (Forall Q).
Proof.
  split; [constructor | intros a b Ha Hb; apply Forall_app; auto].
Qed.

Section TraceLogic.
Variable I : World -> Prop.
Variable WF : list (bool * Event) -> Prop.
Context {WF_ok : TraceProp WF}.

Lemma steps_ret {A} (a : A) : steps I WF (ret a).
Proof.
  constructor. intros w Hw. cbn. split; [assumption|]. exists []. rewrite app_nil_r.
  split; [reflexivity | apply wf_nil].
Qed.

Lemma steps_raise {A} (e : PyErr) : steps I WF (raise (A := A) e).
Proof.
  constructor. intros w Hw. cbn. split; [assumption|]. exists []. rewrite app_nil_r.
  split; [reflexivity | apply wf_nil].
Qed.

Lemma steps_get : steps I WF get.
Proof.
  constructor. intros w Hw. cbn. split; [assumption|]. exists []. rewrite app_nil_r.
  split; [reflexivity | apply wf_nil].
Qed.

Lemma steps_lift_err {A} (r : PyErr + A) : steps I WF (lift_err r).
Proof. destruct r; [apply steps_raise | apply steps_ret]. Qed.

Lemma steps_bind {A B} (m : M A) (k : A -> M B) :
  steps I WF m -> (forall a, steps I WF (k a)) -> steps I WF (bind m k).
Proof.
  intros Hm Hk. constructor. intros w Hw. unfold bind.
  destruct (steps_run Hm w Hw) as [Hi [evs [Et Hwf]]].
  destruct (m w) as [[e|a] w1]; cbn in *.
  - split; [assumption|]. now exists evs.
  - destruct (steps_run (Hk a) w1 Hi) as [Hi2 [evs2 [Et2 Hwf2]]].
    split; [assumption|]. exists (evs ++ evs2).
    rewrite Et2, Et, app_assoc. split; [reflexivity | now apply wf_app].
Qed.

Lemma steps_for_each {A S} (xs : list A) (body : A -> S -> M S) :
  (forall x s, steps I WF (body x s)) -> forall s, steps I WF (for_each xs body s).
Proof.
  intros Hb. induction xs as [|x xs IH]; intros s; cbn [for_each].
  - apply steps_ret.
  - apply steps_bind; [apply Hb | intros s'; apply IH].
Qed.

Lemma steps_repeat_n {S} (n : nat) (body : S -> M S) :
  (forall s, steps I WF (body s)) -> forall s, steps I WF (repeat_n n body s).
Proof.
  intros Hb. induction n as [|n IH]; intros s; cbn [repeat_n].
  - apply steps_ret.
  - apply steps_bind; [apply Hb | intros s'; apply IH].
Qed.

(** After [w <- get], [w] is a world of the invariant. *)
Lemma steps_bind_get {B} (k : World -> M B) :
  (forall w0, I w0 -> steps I WF (k w0)) -> steps I WF (bind get k).
Proof. intros H. constructor. intros w Hw. exact (steps_run (H w Hw) w Hw). Qed.

(** A state change that records at most one event. *)
Lemma steps_modify (f : World -> World) :
  (forall w, I w -> I (f w)) ->
  (forall w, I w -> exists evs, w_trace (f w) = w_trace w ++ evs /\ WF evs) ->
  steps I WF (modify f).
Proof. intros Hi He. constructor. intros w Hw. cbn. split; [now apply Hi | now apply He]. Qed.

(** [@torch.no_grad()] around a computation whose invariant does not
    read the gradient mode. *)
Lemma steps_no_grad {A} (m : M A) :
  (forall w g, I w -> I (set_grad_enabled g w)) ->
  steps I WF m -> steps I WF (no_grad m).
Proof.
  intros Hg Hm. constructor. intros w Hw. unfold no_grad.
  destruct (steps_run Hm (set_grad_enabled false w) (Hg _ _ Hw)) as [Hi [evs [Et Hwf]]].
  destruct (m (set_grad_enabled false w)) as [r w1]. cbn in *.
  split; [now apply Hg | now exists evs].
Qed.

End TraceLogic.

(** Stepping through a computation: the structure by the rules above,
    the collaborators' calls by unfolding them; [side] closes what is
    left about the invariant and the recorded event. *)
Ltac steps_leaf side :=
  let w := fresh "w" in
  let Hw := fresh "Hw" in
  constructor; intros w Hw;
  unfold model_eval, model_train, model_to, call_model, optimizer_zero_grad,
    loss_backward, optimizer_step, scheduler_step, torch_save, emit, modify;
  cbn beta iota zeta delta [fst snd];
  repeat match goal with
         | |- context [let (_, _) := ?x in _] => destruct x
         end;
  cbn [fst snd];
  split;
  [ side
  | first [ exists []; split; [ symmetry; apply app_nil_r | exact wf_nil ]
          | eexists; split; [ reflexivity | side ] ] ].

Ltac steps_step side :=
  lazymatch goal with
    | |- steps _ _ (bind get _) => apply steps_bind_get; intros ? ?
    | |- steps _ _ (bind _ _) => apply steps_bind; [ exact _ | | intros ? ]
    | |- steps _ _ (ret _) => apply steps_ret; exact _
    | |- steps _ _ (raise _) => apply steps_raise; exact _
    | |- steps _ _ get => apply steps_get; exact _
    | |- steps _ _ (lift_err _) => apply steps_lift_err; exact _
    | |- steps _ _ (for_each _ _ _) => apply steps_for_each; [ exact _ | intros ? ? ]
    | |- steps _ _ (repeat_n _ _ _) => apply steps_repeat_n; [ exact _ | intros ? ]
    | |- steps _ _ (match ?x with _ => _ end) => destruct x
    | |- steps _ _ (no_grad _) =>
        apply steps_no_grad; [ intros ? ? ?; side | ]
    | |- steps _ _ (val _) => unfold val
    | |- steps _ _ (epoch_work _ _ _ _ _ _ _) => unfold epoch_work; cbv zeta
    | |- steps _ _ (train_epoch _ _ _ _ _ _ _) => unfold train_epoch; cbv zeta
    | |- steps _ _ (train_epochs _ _ _ _) => unfold train_epochs; cbv zeta
    | |- steps _ _ (val_iter _ _ _) => unfold val_iter; cbv zeta
    | |- steps _ _ (train_iter _ _ _) => unfold train_iter; cbv zeta
    | |- steps _ _ (val_batch _ _) => unfold val_batch; cbv zeta
    | |- steps _ _ (train_batch _ _ _ _ _) => unfold train_batch; cbv zeta
    | |- steps _ _ (call_exp _) => unfold call_exp
    | |- steps _ _ (DepthImgGenerator _ _ _) => unfold DepthImgGenerator; cbv zeta
    | |- steps _ _ (call_generator _ _ _) => unfold call_generator
    | |- steps _ _ (call_geodesic _ _) => unfold call_geodesic
    | |- steps _ _ (call_photo _ _ _) => unfold call_photo
    | |- steps _ _ (call_chamfer _ _ _ _) => unfold call_chamfer
    | |- steps _ _ (torch_load _) => unfold torch_load
    | |- steps _ _ (save_checkpoint _ _ _) => unfold save_checkpoint
    | |- steps _ _ (model_load_state_dict _) => unfold model_load_state_dict
    | |- steps _ _ (optimizer_load_state_dict _) => unfold optimizer_load_state_dict
    | |- steps _ _ cuda_is_available => unfold cuda_is_available
    | |- steps _ _ device_fallback => unfold device_fallback
    | |- steps _ _ resume_or_fresh => unfold resume_or_fresh
    | |- steps _ _ (train _ _) => unfold train
    | |- steps _ _ _ => steps_leaf side
    end.

Ltac steps_go side := repeat (steps_step side).

(** ** The validation pass leaves the network and the optimizer alone *)

Ltac val_side :=
  first [ progress (unfold val_frame in *; cbn in *; intuition congruence)
        | repeat constructor; unfold val_frame, read_only_event in *; cbn in *; intuition congruence ].

Lemma val_body_steps w0 loader :
  steps (val_frame w0) (Forall read_only_event)
        (bind model_eval (fun _ =>
         bind (for_each loader val_batch (PrimFloat.zero, PrimFloat.zero)) (fun tot =>
         bind (lift_err (div_by_len (fst tot) (length loader))) (fun total_dR =>
         bind (lift_err (div_by_len (snd tot) (length loader))) (fun total_dT =>
         ret (PrimFloat.add total_dR total_dT, total_dR, total_dT)))))).
Proof. steps_go val_side. Qed.

(** C5: [val] never backpropagates and only reads the network's
    parameters and the optimizer: after any call of [val], the
    parameters, the accumulated gradients, the optimizer state and the
    files are what they were, the gradient mode is restored, and every
    event of the call (the geodesic error among them) ran with gradient
    tracking off and is no backward pass, optimizer or scheduler step,
    and no write. *)
Theorem val_keeps_parameters_and_optimizer (loader : list Batch) (w : World) :
  let w' := snd (val loader w) in
  m_params (w_model w') = m_params (w_model w) /\
  m_grads (w_model w') = m_grads (w_model w) /\
  w_optim w' = w_optim w /\
  w_files w' = w_files w /\
  w_grad_enabled w' = w_grad_enabled w /\
  exists evs, w_trace w' = w_trace w ++ evs /\ Forall read_only_event evs.
Proof.
  unfold val, no_grad.
  pose proof (steps_run (val_body_steps (set_grad_enabled false w) loader)
                        (set_grad_enabled false w)) as H.
  match type of H with
  | val_frame _ _ -> val_frame _ (snd (?m _)) /\ _ =>
      destruct (m (set_grad_enabled false w)) as [r w1]
  end.
  cbn [snd] in *.
  destruct H as [Hf [evs [Et Hev]]].
  - unfold val_frame. cbn. intuition congruence.
  - unfold val_frame in Hf. cbn in Hf, Et.
    destruct Hf as (Hp & Hg & _ & Ho & Hfi & _).
    cbn. repeat split; try assumption. now exists evs.
Qed.

(** C3: in both inner loops, one iteration reprojects the working point
    cloud under the exponential map of the twist predicted in that
    iteration, whatever the accumulated transform [g0] is, and a whole
    batch is a chain of such iterations from the uncalibrated inputs. *)
Theorem only_the_increment_moves_the_cloud
    (batch : Batch) (K : Intr) (d : Depth) (pcd : Pcd) (g0 : Mat) (w : World) :
  index0 (b_InTran batch) = inr K ->
  let rgb := b_img batch in
  let g := batch_generator batch K w in
  let m := w_model w in
  let out := fst (forward (m_params m) (m_buffers m) (m_training m) rgb d) in
  let twist := cat (fst out) (snd out) in
  let extran := se3_exp twist in
  let dp := reproject (dg_shape g) (dg_InTran g) (dg_pooling g) extran pcd in
  let iteration := [EPredict rgb d; EExp twist; EReproject g extran pcd] in
  (fst (val_iter rgb g (d, pcd, g0) w) = inr (fst dp, snd dp, g0) /\
   map snd (new_events w (snd (val_iter rgb g (d, pcd, g0) w))) = iteration) /\
  (fst (train_iter rgb g (d, pcd) w) = inr dp /\
   map snd (new_events w (snd (train_iter rgb g (d, pcd) w))) = iteration) /\
  (forall tot, exists evs s',
     refines rgb g (b_uncalibed_depth_img batch, b_uncalibed_pcd batch) evs s' /\
     map snd (new_events w (snd (val_batch batch tot w))) =
       EGenerator g :: evs ++ [EGeodesic (identity_transform batch) (b_igt batch)]) /\
  (forall scale alpha beta tot, exists evs s',
     refines rgb g (b_uncalibed_depth_img batch, b_uncalibed_pcd batch) evs s' /\
     map snd (new_events w (snd (train_batch scale alpha beta batch tot w))) =
       [EZeroGrad; EGenerator g] ++ evs ++
       [EPhotoLoss scale (b_depth_img batch) (fst s');
        EChamferLoss scale "sum" (b_pcd batch) (snd s');
        EBackward (sadd (smul alpha (Photo_Loss scale (b_depth_img batch) (fst s')))
                        (smul beta (ChamferDistanceLoss scale "sum" (b_pcd batch) (snd s'))));
        EOptimStep]).
Proof.
  intros HK rgb g m out twist extran dp iteration.
  subst out m. destruct (forward _ _ _ rgb d) as [tw b] eqn:E.
  repeat split.
  - now rewrite (val_iter_run rgb g d pcd g0 w tw b E).
  - rewrite (val_iter_run rgb g d pcd g0 w tw b E). cbn [snd].
    now rewrite new_events_advance, map_snd_pair.
  - now rewrite (train_iter_run rgb g d pcd w tw b E).
  - rewrite (train_iter_run rgb g d pcd w tw b E). cbn [snd].
    now rewrite new_events_advance, map_snd_pair.
  - intros tot. rewrite (val_batch_new_events batch tot w K HK).
    eexists _, _. split; [apply trajectory_refines | reflexivity].
  - intros scale alpha beta tot.
    rewrite (train_batch_new_events scale alpha beta batch tot w K HK).
    eexists _, _. split; [apply trajectory_refines | reflexivity].
Qed.

(** The transform that [val] hands to [geodesic_distance] is the
    identity it started from, for every batch and any number of inner
    iterations: the products [g0.bmm(extran)] are never stored. *)
Lemma val_hands_identity_to_geodesic (batch : Batch) (tot : float * float)
    (w : World) (K : Intr) :
  index0 (b_InTran batch) = inr K ->
  exists r w' evs,
    val_batch batch tot w = (inr r, w') /\
    map snd (new_events w w') =
      evs ++ [EGeodesic (identity_transform batch) (b_igt batch)] /\
    count_kind KGeodesic evs = O /\
    increments evs = increments (fst (batch_trajectory batch K w)).
Proof.
  intros HK. pose proof (val_batch_new_events batch tot w K HK) as Hev.
  rewrite (val_batch_run batch tot w K HK) in *.
  eexists _, _, (EGenerator _ :: fst (batch_trajectory batch K w)).
  split; [reflexivity|]. cbn [snd] in Hev. rewrite Hev.
  split; [reflexivity|]. split; [|reflexivity].
  destruct (batch_trajectory_facts batch K w) as (_ & Hc & _).
  specialize (Hc KGeodesic). count_events Hc.
Qed.

(** C2: a refinement run makes exactly [args.inner_iter] inner
    iterations, each of them the network, then the exponential map, then
    the reprojection; the first iteration works on the uncalibrated depth
    image and point cloud, [val] starts from the identity transform, and
    [train] feeds the depth image and point cloud that the last
    reprojection returned to the two losses. *)
Theorem refinement_run_schedule (scale alpha beta : float) (batch : Batch)
    (vtot : float * float) (ttot : float * float * float) (w : World) (K : Intr) :
  index0 (b_InTran batch) = inr K ->
  0 <= a_inner_iter (w_args w) ->
  let g := batch_generator batch K w in
  let rgb := b_img batch in
  exists (n : nat) (iters : list Event) (d' : Depth) (pcd' : Pcd),
    Z.of_nat n = a_inner_iter (w_args w) /\
    map kind_of iters = concat (repeat [KPredict; KExp; KReproject] n) /\
    count_kind KPredict iters = n /\
    refines rgb g (b_uncalibed_depth_img batch, b_uncalibed_pcd batch) iters (d', pcd') /\
    (n <> O -> exists evs extran pcd,
        iters = evs ++ [EReproject g extran pcd] /\
        (d', pcd') = reproject (dg_shape g) (dg_InTran g) (dg_pooling g) extran pcd) /\
    (n = O -> (d', pcd') = (b_uncalibed_depth_img batch, b_uncalibed_pcd batch)) /\
    (exists r w', val_batch batch vtot w = (inr r, w') /\
       map snd (new_events w w') =
         EGenerator g :: iters ++
         [EGeodesic (Tensor.repeat_batch (Tensor.eye r0 r1 4) (size0 rgb)) (b_igt batch)]) /\
    (exists r w', train_batch scale alpha beta batch ttot w = (inr r, w') /\
       map snd (new_events w w') =
         [EZeroGrad; EGenerator g] ++ iters ++
         [EPhotoLoss scale (b_depth_img batch) d';
          EChamferLoss scale "sum" (b_pcd batch) pcd';
          EBackward (sadd (smul alpha (Photo_Loss scale (b_depth_img batch) d'))
                          (smul beta (ChamferDistanceLoss scale "sum" (b_pcd batch) pcd')));
          EOptimStep]).
Proof.
  intros HK Hn g rgb. subst g rgb.
  pose proof (val_batch_new_events batch vtot w K HK) as Hv.
  pose proof (train_batch_new_events scale alpha beta batch ttot w K HK) as Ht.
  rewrite (val_batch_run batch vtot w K HK) in *.
  rewrite (train_batch_run scale alpha beta batch ttot w K HK) in *.
  cbn [snd] in Hv, Ht.
  unfold val_batch_events in Hv.
  unfold train_batch_events, loss_of, loss1_of, loss2_of in Ht.
  destruct (batch_trajectory_facts batch K w) as (Hk & Hc & Hr & _ & Hl & H0).
  specialize (Hc KPredict).
  destruct (batch_trajectory batch K w) as [iters [[d' pcd'] b']] eqn:Etr.
  cbn [fst snd] in *.
  exists (Z.to_nat (a_inner_iter (w_args w))), iters, d', pcd'.
  split; [now apply Z2Nat.id|].
  split; [exact Hk|].
  split; [rewrite Hc; cbn; lia|].
  split; [exact Hr|].
  split; [exact Hl|].
  split; [exact H0|].
  split; eexists _, _; (split; [reflexivity|]); assumption.
Qed.

(** C7: [val] and [train] read the first entry of a batch's intrinsics
    and no other: the run is the same when the other entries are dropped;
    one depth-image generator is built per batch, from that entry, and
    every reprojection of the batch goes through that generator. *)
Theorem first_intrinsics_serve_the_batch (scale alpha beta : float) (batch : Batch)
    (vtot : float * float) (ttot : float * float * float) (w : World)
    (K : Intr) (others : list Intr) :
  b_InTran batch = K :: others ->
  let g := mkDepthGen (shape_hw (b_img batch)) K (a_pooling (w_args w)) in
  let n := Z.to_nat (a_inner_iter (w_args w)) in
  let served (evs : list Event) :=
    Forall (fun e => forall g', generator_of e = Some g' -> g' = g) evs /\
    count_kind KGenerator evs = 1%nat /\
    count_kind KReproject evs = n in
  (val_batch batch vtot w = val_batch (set_InTran [K] batch) vtot w /\
   served (map snd (new_events w (snd (val_batch batch vtot w))))) /\
  (train_batch scale alpha beta batch ttot w =
     train_batch scale alpha beta (set_InTran [K] batch) ttot w /\
   served (map snd (new_events w (snd (train_batch scale alpha beta batch ttot w))))).
Proof.
  intros HK g n served.
  assert (H1 : index0 (b_InTran batch) = inr K) by now rewrite HK.
  assert (H2 : index0 (b_InTran (set_InTran [K] batch)) = inr K) by reflexivity.
  destruct (batch_trajectory_facts batch K w) as (_ & Hc & _ & Hg & _).
  fold (batch_generator batch K w) in g. subst g n served. cbv beta.
  split; split.
  - now rewrite (val_batch_run batch vtot w K H1), (val_batch_run _ vtot w K H2).
  - rewrite (val_batch_new_events batch vtot w K H1). unfold val_batch_events.
    split; [|split].
    + constructor; [cbn; congruence|]. apply Forall_app. split; [exact Hg|].
      repeat constructor. cbn. congruence.
    + count_events (Hc KGenerator).
    + count_events (Hc KReproject).
  - now rewrite (train_batch_run scale alpha beta batch ttot w K H1),
      (train_batch_run scale alpha beta _ ttot w K H2).
  - rewrite (train_batch_new_events scale alpha beta batch ttot w K H1).
    unfold train_batch_events.
    split; [|split].
    + repeat (constructor; [cbn; congruence|]). apply Forall_app. split; [exact Hg|].
      repeat constructor; cbn; congruence.
    + count_events (Hc KGenerator).
    + count_events (Hc KReproject).
Qed.

(** ** One epoch *)

Lemma bind_inv {A B} (m : M A) (k : A -> M B) w b w' :
  bind m k w = (inr b, w') ->
  exists a w1, m w = (inr a, w1) /\ k a w1 = (inr b, w').
Proof.
  unfold bind. destruct (m w) as [[e|a] w1]; [discriminate|]. intros H. now exists a, w1.
Qed.

Lemma lift_err_inv {A} (r : PyErr + A) w a w' :
  lift_err r w = (inr a, w') -> r = inr a /\ w' = w.
Proof. destruct r; cbn; intros H; inversion H; auto. Qed.

Lemma bind_assoc {A B D} (m : M A) (k : A -> M B) (h : B -> M D) w :
  bind (bind m k) h w = bind m (fun a => bind (k a) h) w.
Proof. unfold bind. now destruct (m w) as [[e|a] w1]. Qed.

Lemma bind_ext {A B} (m : M A) (k k' : A -> M B) w :
  (forall a w1, k a w1 = k' a w1) -> bind m k w = bind m k' w.
Proof. intros H. unfold bind. destruct (m w) as [[e|a] w1]; [reflexivity | apply H]. Qed.

Lemma train_epoch_split tl vl scale alpha beta epoch scheduler min_loss w :
  train_epoch tl vl scale alpha beta epoch (scheduler, min_loss) w =
    bind (epoch_work tl vl scale alpha beta epoch scheduler)
         (epoch_saves epoch min_loss) w.
Proof.
  unfold train_epoch, epoch_work. cbv zeta. symmetry.
  rewrite bind_assoc. apply bind_ext. intros _ w1.
  rewrite bind_assoc. apply bind_ext. intros [[tl' tp] tc] w2.
  rewrite bind_assoc. apply bind_ext. intros _ w3.
  rewrite bind_assoc. apply bind_ext. intros _ w4.
  rewrite bind_assoc. apply bind_ext. intros _ w5.
  rewrite bind_assoc. apply bind_ext. intros sch w6.
  rewrite bind_assoc. apply bind_ext. intros [[loss_dx dR] dT] w7.
  reflexivity.
Qed.

Ltac env_side :=
  first [ progress (unfold env_fixed in *; cbn in *; intuition congruence)
        | repeat constructor; unfold env_fixed, quiet_event in *; cbn in *;
          intuition congruence ].

Lemma epoch_work_steps w0 tl vl scale alpha beta epoch scheduler :
  steps (env_fixed w0) (Forall quiet_event)
        (epoch_work tl vl scale alpha beta epoch scheduler).
Proof. steps_go env_side. Qed.

(** The loss that the work of an epoch yields is the first component of
    what [val] returned. *)
Lemma epoch_work_val tl vl scale alpha beta epoch scheduler w scheduler' loss_dx w2 :
  epoch_work tl vl scale alpha beta epoch scheduler w = (inr (scheduler', loss_dx), w2) ->
  exists w1 dR dT, val (vl epoch) w1 = (inr (loss_dx, dR, dT), w2).
Proof.
  unfold epoch_work. cbv zeta. intros H.
  apply bind_inv in H as (u & w1 & _ & H).
  apply bind_inv in H as ([[tl' tp] tc] & wa & _ & H).
  apply bind_inv in H as (x1 & wb & _ & H).
  apply bind_inv in H as (x2 & wc & _ & H).
  apply bind_inv in H as (x3 & wd & _ & H).
  apply bind_inv in H as (sch & we & _ & H).
  apply bind_inv in H as ([[l dR] dT] & wf & Hv & H).
  cbn in H. inversion H; subst. now exists we, dR, dT.
Qed.

Lemma epoch_saves_run epoch min_loss scheduler loss_dx w :
  let better := PrimFloat.ltb loss_dx min_loss in
  let min_loss' := if better then loss_dx else min_loss in
  epoch_saves epoch min_loss (scheduler, loss_dx) w =
    (inr (scheduler, min_loss'),
     saved last_path min_loss' epoch
           (if better then saved best_path loss_dx epoch w else w)).
Proof.
  unfold epoch_saves, save_checkpoint, torch_save, saved. cbv zeta.
  destruct (PrimFloat.ltb loss_dx min_loss); reflexivity.
Qed.

(** ** Order on Python floats *)

Lemma SFcompare_refl x : x <> S754_nan -> SFcompare x x = Some Eq.
Proof.
  destruct x as [s|s| |s m e]; intros H; cbn; try congruence.
  - now destruct s.
  - rewrite Z.compare_refl, Pos.compare_cont_refl. now destruct s.
Qed.

Lemma ltb_leb x y : PrimFloat.ltb x y = true -> PrimFloat.leb x y = true.
Proof.
  rewrite FloatAxioms.ltb_spec, FloatAxioms.leb_spec. unfold SFltb, SFleb.
  now destruct (SFcompare _ _) as [[]|].
Qed.

Lemma ltb_is_number x y : PrimFloat.ltb x y = true -> PrimFloat.is_nan x = false.
Proof.
  unfold PrimFloat.is_nan. rewrite FloatAxioms.ltb_spec, FloatAxioms.eqb_spec.
  unfold SFltb, SFeqb.
  intros H. rewrite SFcompare_refl; [reflexivity|].
  intros E. rewrite E in H. discriminate.
Qed.

Lemma leb_refl x : PrimFloat.is_nan x = false -> PrimFloat.leb x x = true.
Proof.
  unfold PrimFloat.is_nan. rewrite FloatAxioms.leb_spec, FloatAxioms.eqb_spec.
  unfold SFleb, SFeqb.
  now destruct (SFcompare _ _) as [[]|].
Qed.

Lemma SFleb_trans x y z : SFleb x y = true -> SFleb y z = true -> SFleb x z = true.
Proof.
  unfold SFleb.
  destruct x as [sx|sx| |sx mx ex], y as [sy|sy| |sy my ey], z as [sz|sz| |sz mz ez];
    cbn; try discriminate; try reflexivity;
    repeat match goal with s : bool |- _ => destruct s end;
    cbn; try discriminate; try reflexivity.
  all: change (Pos.compare_cont Eq) with Pos.compare.
  all: destruct (Z.compare_spec ex ey); cbn; try discriminate;
       destruct (Z.compare_spec ey ez); cbn; try discriminate;
       destruct (Z.compare_spec ex ez); cbn; try reflexivity; try lia;
       subst;
       destruct (Pos.compare_spec mx my); cbn; try discriminate;
       destruct (Pos.compare_spec my mz); cbn; try discriminate;
       destruct (Pos.compare_spec mx mz); cbn; try reflexivity; try lia.
Qed.

Lemma leb_trans x y z :
  PrimFloat.leb x y = true -> PrimFloat.leb y z = true -> PrimFloat.leb x z = true.
Proof. rewrite !FloatAxioms.leb_spec. apply SFleb_trans. Qed.

(** [min_loss = loss_dx if loss_dx < min_loss else min_loss] does not
    increase a [min_loss] that is a number, and leaves a number. *)
Lemma min_loss_update loss_dx min_loss :
  PrimFloat.is_nan min_loss = false ->
  let min_loss' := if PrimFloat.ltb loss_dx min_loss then loss_dx else min_loss in
  PrimFloat.leb min_loss' min_loss = true /\ PrimFloat.is_nan min_loss' = false.
Proof.
  intros Hnan. cbv zeta. destruct (PrimFloat.ltb loss_dx min_loss) eqn:Hlt.
  - split; [now apply ltb_leb | now apply ltb_is_number in Hlt].
  - split; [now apply leb_refl | exact Hnan].
Qed.

(** ** Checkpoints *)



(** A checkpoint depends on the world through the network and the
    optimizer only. *)
Lemma checkpoint_dict_saved path ml e w min_loss epoch :
  checkpoint_dict (saved path ml e w) min_loss epoch = checkpoint_dict w min_loss epoch.
Proof. reflexivity. Qed.

(** One epoch that ends normally, in full. *)
Lemma train_epoch_run tl vl scale alpha beta epoch scheduler min_loss w
    scheduler' min_loss' w' :
  train_epoch tl vl scale alpha beta epoch (scheduler, min_loss) w =
    (inr (scheduler', min_loss'), w') ->
  exists loss_dx w2 evs,
    epoch_work tl vl scale alpha beta epoch scheduler w = (inr (scheduler', loss_dx), w2) /\
    env_fixed w w2 /\
    w_trace w2 = w_trace w ++ evs /\ Forall quiet_event evs /\
    min_loss' = (if PrimFloat.ltb loss_dx min_loss then loss_dx else min_loss) /\
    w' = saved last_path min_loss' epoch
               (if PrimFloat.ltb loss_dx min_loss
                then saved best_path loss_dx epoch w2 else w2).
Proof.
  rewrite train_epoch_split. intros H.
  apply bind_inv in H as ([sch loss_dx] & w2 & Hw & Hs).
  rewrite epoch_saves_run in Hs. inversion Hs; subst. clear Hs.
  destruct (steps_run (epoch_work_steps w tl vl scale alpha beta epoch scheduler) w)
    as (Hf & evs & Ht & Hq).
  { unfold env_fixed. auto. }
  rewrite Hw in Hf, Ht. cbn [snd] in Hf, Ht.
  exists loss_dx, w2, evs. repeat split; auto; apply Hf.
Qed.

(** Over any run of epochs [min_loss] does not increase. *)
Lemma epochs_min_loss tl vl scale alpha beta epochs : forall s0 s1 m0 m1 w0 w1,
  for_each epochs (train_epoch tl vl scale alpha beta) (s0, m0) w0 = (inr (s1, m1), w1) ->
  PrimFloat.is_nan m0 = false ->
  PrimFloat.leb m1 m0 = true /\ PrimFloat.is_nan m1 = false.
Proof.
  induction epochs as [|e epochs IH]; intros s0 s1 m0 m1 w0 w1 H Hnan; cbn [for_each] in H.
  - inversion H; subst. split; [now apply leb_refl | exact Hnan].
  - apply bind_inv in H as ([s m] & w & He & H).
    apply train_epoch_run in He as (loss_dx & _ & _ & _ & _ & _ & _ & Hm & _).
    destruct (min_loss_update loss_dx m0 Hnan) as (Hle & Hn). rewrite <- Hm in Hle, Hn.
    destruct (IH _ _ _ _ _ _ H Hn) as (Hle' & Hn').
    split; [now apply leb_trans with m | exact Hn'].
Qed.

(** C9: through an epoch that ends normally, [min_loss] becomes
    [loss_dx] when [loss_dx < min_loss] and stays as it was otherwise, so
    it never increases (for a [min_loss] that is a number, as the initial
    infinity is, and it stays a number), over one epoch and over any run
    of epochs; the epoch writes the [_best] checkpoint exactly when
    [loss_dx < min_loss], then the [_last] checkpoint in every case, and
    writes nothing else. *)
Theorem best_and_last_checkpoints (tl vl : Z -> list Batch) (scale alpha beta : float)
    (epoch : Z) (scheduler scheduler' : Sched) (min_loss min_loss' : float)
    (w w' : World) :
  train_epoch tl vl scale alpha beta epoch (scheduler, min_loss) w =
    (inr (scheduler', min_loss'), w') ->
  (exists (loss_dx : float) (work : list Event),
    (exists w1 w2 dR dT, val (vl epoch) w1 = (inr (loss_dx, dR, dT), w2)) /\
    min_loss' = (if PrimFloat.ltb loss_dx min_loss then loss_dx else min_loss) /\
    (PrimFloat.is_nan min_loss = false ->
     PrimFloat.leb min_loss' min_loss = true /\ PrimFloat.is_nan min_loss' = false) /\
    let bundle := checkpoint_dict w' min_loss' epoch in
    map snd (new_events w w') =
      work ++
      (if PrimFloat.ltb loss_dx min_loss then [ESave (best_path (w_args w)) bundle] else []) ++
      [ESave (last_path (w_args w)) bundle] /\
    count_kind KSave work = O) /\
  (forall (epochs : list Z) (s0 s1 : Sched) (m0 m1 : float) (w0 w1 : World),
     for_each epochs (train_epoch tl vl scale alpha beta) (s0, m0) w0 =
       (inr (s1, m1), w1) ->
     PrimFloat.is_nan m0 = false ->
     PrimFloat.leb m1 m0 = true /\ PrimFloat.is_nan m1 = false).
Proof.
  intros H. split; [|intros epochs s0 s1 m0 m1 w0 w1; apply epochs_min_loss].
  apply train_epoch_run in H as (loss_dx & w2 & evs & Hw & Hf & Ht & Hq & Hm & Hw').
  exists loss_dx, (map snd evs).
  split; [|split; [exact Hm|split]].
  - apply epoch_work_val in Hw as (w1 & dR & dT & Hv). now exists w1, w2, dR, dT.
  - intros Hnan. subst min_loss'. now apply min_loss_update.
  - destruct Hf as (Ha & _ & _). cbv zeta. split.
    + subst w'. rewrite checkpoint_dict_saved.
      destruct (PrimFloat.ltb loss_dx min_loss) eqn:Hlt; subst min_loss'.
      * rewrite checkpoint_dict_saved.
        erewrite new_events_app
          by (unfold saved; cbn [w_trace record set_files]; rewrite Ht, <- !app_assoc;
              reflexivity).
        cbn [w_args record set_files w_grad_enabled]. rewrite Ha.
        rewrite map_app. reflexivity.
      * erewrite new_events_app
          by (unfold saved; cbn [w_trace record set_files]; rewrite Ht, <- !app_assoc;
              reflexivity).
        cbn [w_args record set_files w_grad_enabled]. rewrite Ha.
        rewrite map_app. reflexivity.
    + clear - Hq. induction Hq as [|e evs He _ IH]; [reflexivity|].
      cbn [map]. rewrite count_kind_cons, IH.
      destruct He as (Hs & _). destruct e as [g []]; cbn in *; congruence.
Qed.


(** ** The device decision *)

Lemma bind_modify {B} (f : World -> World) (k : unit -> M B) w :
  bind (modify f) k w = k tt (f w).
Proof. reflexivity. Qed.

Ltac resume_side :=
  first [ progress (unfold cuda_fixed in *; cbn in *; intuition congruence)
        | repeat constructor; unfold cuda_fixed, load_event in *; cbn in *;
          intuition congruence ].

Lemma resume_or_fresh_steps w0 :
  steps (cuda_fixed w0) (Forall load_event) resume_or_fresh.
Proof. steps_go resume_side. Qed.

Lemma device_fallback_run w : device_fallback w = (inr tt, after_fallback w).
Proof.
  unfold device_fallback, cuda_is_available, after_fallback, emit, modify, get.
  unfold bind, ret. cbn [w_cuda record]. now destruct (w_cuda w).
Qed.

Ltac args_side :=
  first [ progress (unfold args_fixed in *; cbn in *; intuition congruence)
        | repeat constructor; unfold args_fixed, no_decision in *; cbn in *;
          intuition congruence ].

Lemma train_epochs_steps w0 tl vl start_epoch min_loss :
  steps (args_fixed w0) (Forall no_decision) (train_epochs tl vl start_epoch min_loss).
Proof. steps_go args_side. Qed.

Lemma Forall_map_snd (P : Event -> Prop) (evs : list (bool * Event)) :
  Forall (fun e => P (snd e)) evs -> Forall P (map snd evs).
Proof. intros H. now apply Forall_map. Qed.

(** C8: a run of [train] asks once whether CUDA is available and, when
    it is not, switches [args.device] to the CPU right there, once:
    before that point the run has only read the checkpoint to resume
    from (and it stops there when that fails), and after it, through all
    epochs, refinement loops and losses, there is no further query and
    no further switch. *)
Theorem device_decision_once (tl vl : Z -> list Batch) (w : World) :
  let run := train tl vl w in
  exists pre post : list Event,
    map snd (new_events w (snd run)) = pre ++ post /\
    Forall (fun e => kind_of e = KLoad) pre /\
    ((post = [] /\ exists e, fst run = inl e) \/
     (exists rest,
        post = ECudaQuery (w_cuda w) ::
               (if w_cuda w then [] else [EDeviceFallback]) ++ rest /\
        Forall (fun e => is_decision e = false) rest /\
        (w_cuda w = false -> a_device (w_args (snd run)) = "cpu"))).
Proof.
  intros run. assert (Hrun : run = train tl vl w) by reflexivity. clearbody run.
  unfold train in Hrun. rewrite !bind_modify in Hrun.
  set (w1 := set_optim _ (set_model _ w)) in Hrun.
  assert (Ht1 : w_trace w1 = w_trace w) by reflexivity.
  assert (Hc1 : w_cuda w1 = w_cuda w) by reflexivity.
  clearbody w1.
  destruct (steps_run (resume_or_fresh_steps w1) w1) as (Hf & evs1 & Ht2 & Hl);
    [reflexivity|].
  unfold bind at 1 in Hrun.
  destruct (resume_or_fresh w1) as [[e|[start_epoch min_loss]] w2]; cbn [snd fst] in *.
  - subst run. cbn [fst snd]. exists (map snd evs1), []. rewrite app_nil_r.
    split; [|split].
    + f_equal. apply new_events_app. now rewrite Ht2, Ht1.
    + now apply Forall_map_snd.
    + left. split; [reflexivity | now exists e].
  - erewrite bind_inr in Hrun by apply device_fallback_run.
    destruct (steps_run (train_epochs_steps (after_fallback w2) tl vl start_epoch min_loss)
                        (after_fallback w2)) as (Ha & evs2 & Ht3 & Hd);
      [split; reflexivity|].
    destruct (train_epochs tl vl start_epoch min_loss (after_fallback w2)) as [r w4].
    subst run. cbn [snd fst] in *. unfold cuda_fixed in Hf. rewrite Hc1 in Hf.
    exists (map snd evs1),
      (ECudaQuery (w_cuda w) :: (if w_cuda w then [] else [EDeviceFallback]) ++ map snd evs2).
    split; [|split].
    + assert (Htr : w_trace w4 =
                      w_trace w ++
                      (evs1 ++
                       ((w_grad_enabled w2, ECudaQuery (w_cuda w)) ::
                        (if w_cuda w then [] else [(w_grad_enabled w2, EDeviceFallback)]) ++
                        evs2))).
      { rewrite Ht3. unfold after_fallback. rewrite Hf.
        destruct (w_cuda w); cbn [w_trace record set_args w_grad_enabled];
          rewrite Ht2, Ht1, <- !app_assoc; reflexivity. }
      rewrite (new_events_app _ _ _ Htr), map_app. cbn [map snd]. rewrite map_app.
      destruct (w_cuda w); reflexivity.
    + now apply Forall_map_snd.
    + right. exists (map snd evs2). split; [|split].
      * reflexivity.
      * now apply Forall_map_snd.
      * intros Hno. destruct Ha as (Ha & _). rewrite Ha.
        unfold after_fallback. rewrite Hf, Hno. reflexivity.
Qed.

(** ** Every backward pass is on the weighted sum of the two losses *)

Lemma trajectory_iteration_events p tr rgb g n : forall s,
  Forall (fun e => kind_of e <> KBackward) (fst (trajectory p tr rgb g n s)).
Proof.
  induction n as [|n IH]; intros [[d pcd] b]; cbn [trajectory].
  - constructor.
  - destruct (forward p b tr rgb d) as [tw b'].
    match goal with |- context [trajectory p tr rgb g n ?s1] => specialize (IH s1) end.
    destruct (trajectory p tr rgb g n _) as [evs s']. cbn [fst] in *.
    repeat (constructor; [cbn; discriminate|]). exact IH.
Qed.

Lemma justified_app scale alpha beta evs1 evs2 :
  justified scale alpha beta evs1 -> justified scale alpha beta evs2 ->
  justified scale alpha beta (evs1 ++ evs2).
Proof.
  intros H1 H2. induction H1 as [|e evs He _ IH|r1 c1 r2 c2 evs _ IH]; cbn [app].
  - exact H2.
  - now apply justified_other.
  - now apply justified_loss.
Qed.

Lemma justified_others scale alpha beta evs :
  Forall (fun e => kind_of e <> KBackward) evs -> justified scale alpha beta evs.
Proof.
  induction 1 as [|e evs He _ IH]; [constructor | now apply justified_other].
Qed.

#[local] Instance justified_TraceProp scale alpha beta :
  TraceProp (justified_trace scale alpha beta).
Proof.
  split; unfold justified_trace.
  - constructor.
  - intros a b Ha Hb. rewrite map_app. now apply justified_app.
Qed.

Lemma train_batch_events_justified scale alpha beta batch K w :
  justified scale alpha beta (train_batch_events scale alpha beta batch K w).
Proof.
  unfold train_batch_events, loss_of, loss1_of, loss2_of.
  apply justified_app; [repeat (apply justified_other; [cbn; discriminate|]); constructor|].
  apply justified_app.
  - apply justified_others. unfold batch_trajectory. apply trajectory_iteration_events.
  - apply justified_loss. apply justified_other; [cbn; discriminate | constructor].
Qed.

(** A batch without intrinsics: the gradients are reset, then the
    indexing raises. *)
Lemma train_batch_no_intrinsics scale alpha beta batch tot w e :
  index0 (b_InTran batch) = inl e ->
  train_batch scale alpha beta batch tot w =
    (inl e, record EZeroGrad
              (set_model (set_grads (zero_grad (m_grads (w_model w))) (w_model w)) w)).
Proof.
  intros E. destruct tot as [[tl tp] tc]. unfold train_batch. rewrite E. reflexivity.
Qed.

Lemma train_batch_justified w0 scale alpha beta batch tot :
  steps (loss_args_fixed w0) (justified_trace scale alpha beta)
        (train_batch scale alpha beta batch tot).
Proof.
  constructor. intros w Hw. destruct (index0 (b_InTran batch)) as [e|K] eqn:E.
  - rewrite (train_batch_no_intrinsics scale alpha beta batch tot w e E). cbn [snd].
    split; [exact Hw|]. eexists [_]. split; [reflexivity|].
    unfold justified_trace. cbn [map snd].
    apply justified_other; [cbn; discriminate | constructor].
  - rewrite (train_batch_run scale alpha beta batch tot w K E). cbn [snd].
    split; [exact Hw|]. eexists. split; [reflexivity|].
    unfold justified_trace. rewrite map_snd_pair. apply train_batch_events_justified.
Qed.

Ltac loss_side :=
  first [ solve [ unfold loss_args_fixed in *; cbn in *; intuition congruence ]
        | solve [ unfold justified_trace; cbn [map snd];
                  apply justified_other; [cbn; discriminate | constructor] ] ].

Ltac loss_go :=
  repeat lazymatch goal with
    | |- steps _ _ (train_batch _ _ _ _ _) => apply train_batch_justified
    | H : loss_args_fixed _ ?w
      |- steps _ _ (for_each _ (train_epoch _ _ (a_scale (w_args ?w)) _ _) _) =>
        let H1 := fresh in let H2 := fresh in let H3 := fresh in
        destruct H as (H1 & H2 & H3); rewrite H1, H2, H3
    | |- _ => steps_step loss_side
    end.

Lemma train_justified w0 tl vl :
  steps (loss_args_fixed w0)
        (justified_trace (a_scale (w_args w0)) (a_alpha (w_args w0)) (a_beta (w_args w0)))
        (train tl vl).
Proof. loss_go. Qed.

(** C4: the loss that a training batch backpropagates is [alpha] times
    the photometric loss of the reference depth image against the final
    reprojected one plus [beta] times the chamfer loss of the reference
    point cloud against the final transformed one; both losses take the
    same scale and the chamfer loss the ['sum'] reduction; the batch
    makes no other backward pass, and the gradients it leaves are those
    of that loss.  In a run of [train] the scale and the two weights are
    [args.scale], [args.alpha] and [args.beta], and every backward pass
    of the run is of that form. *)
Theorem backpropagated_loss (scale alpha beta : float) (batch : Batch)
    (tot : float * float * float) (w : World) (K : Intr)
    (tl vl : Z -> list Batch) :
  index0 (b_InTran batch) = inr K ->
  let g := batch_generator batch K w in
  (exists r w' evs iters d' pcd',
    train_batch scale alpha beta batch tot w = (inr r, w') /\
    refines (b_img batch) g (b_uncalibed_depth_img batch, b_uncalibed_pcd batch)
            iters (d', pcd') /\
    evs = [EZeroGrad; EGenerator g] ++ iters /\
    let loss1 := Photo_Loss scale (b_depth_img batch) d' in
    let loss2 := ChamferDistanceLoss scale "sum" (b_pcd batch) pcd' in
    let loss := sadd (smul alpha loss1) (smul beta loss2) in
    map snd (new_events w w') =
      evs ++ [EPhotoLoss scale (b_depth_img batch) d';
              EChamferLoss scale "sum" (b_pcd batch) pcd';
              EBackward loss; EOptimStep] /\
    count_kind KBackward evs = O /\
    m_grads (w_model w') = backward loss (zero_grad (m_grads (w_model w)))) /\
  (exists evs,
    w_trace (snd (train tl vl w)) = w_trace w ++ evs /\
    justified (a_scale (w_args w)) (a_alpha (w_args w)) (a_beta (w_args w))
              (map snd evs)).
Proof.
  intros HK g. subst g. split.
  2: { destruct (steps_run (train_justified w tl vl) w) as (_ & evs & Ht & Hj).
       - unfold loss_args_fixed. auto.
       - now exists evs. }
  pose proof (train_batch_new_events scale alpha beta batch tot w K HK) as Ht.
  rewrite (train_batch_run scale alpha beta batch tot w K HK) in *.
  cbn [snd] in Ht.
  assert (Hg : m_grads (w_model (after_train_batch scale alpha beta batch K w)) =
               backward (loss_of scale alpha beta batch (snd (batch_trajectory batch K w)))
                        (zero_grad (m_grads (w_model w)))) by reflexivity.
  unfold train_batch_events, loss_of, loss1_of, loss2_of in Ht, Hg.
  destruct (batch_trajectory_facts batch K w) as (_ & Hc & Hr & _).
  specialize (Hc KBackward).
  destruct (batch_trajectory batch K w) as [iters [[d' pcd'] b']] eqn:Etr.
  cbn [fst snd] in *.
  eexists _, (after_train_batch scale alpha beta batch K w), _, iters, d', pcd'.
  split; [reflexivity|]. split; [exact Hr|]. split; [reflexivity|].
  cbv zeta. split; [|split].
  - rewrite Ht. now rewrite <- app_assoc.
  - count_events Hc.
  - exact Hg.
Qed.

(** * Further properties of the script *)

(** ** What [val] returns *)

(** A batch without intrinsics: the indexing raises before any call. *)
Lemma val_batch_no_intrinsics batch tot w e :
  index0 (b_InTran batch) = inl e -> val_batch batch tot w = (inl e, w).
Proof. intros E. unfold val_batch. rewrite E. reflexivity. Qed.










(** ** Epochs that fail, and the files of an epoch *)







Lemma best_last_distinct (a : Args) : best_path a <> last_path a.
Proof.
  unfold best_path, last_path, path_join.
  set (d := a_checkpoint_dir a). set (n := a_checkpoint_name a).
  assert (Hx : n +:+ "_best.pth" <> n +:+ "_last.pth").
  { intros H. apply (inj (String.append n)) in H. discriminate. }
  assert (Hs : starts_with_slash (n +:+ "_best.pth") = starts_with_slash (n +:+ "_last.pth")).
  { destruct n; reflexivity. }
  rewrite Hs. destruct (starts_with_slash (n +:+ "_last.pth")); [exact Hx|].
  destruct (orb (String.eqb d "") (ends_with_slash d)); intros H.
  - now apply (inj (String.append d)) in H.
  - apply (inj (String.append d)) in H. now apply (inj (String.append "/")) in H.
Qed.



Lemma ltb_irrefl x : PrimFloat.ltb x x = false.
Proof.
  rewrite FloatAxioms.ltb_spec. unfold SFltb.
  destruct (Prim2SF x) as [s|s| |s m e] eqn:E;
    try (rewrite SFcompare_refl by discriminate; reflexivity).
  reflexivity.
Qed.

(** X6: the checkpoints after an epoch that ends normally.  The two
    checkpoint paths differ; [torch.save] touches no other path; the
    [_last] file holds the checkpoint of the epoch; the [_best] file
    holds it too when [min_loss] went down, and is left untouched when
    it did not. *)
Theorem files_after_an_epoch (tl vl : Z -> list Batch) (scale alpha beta : float)
    (epoch : Z) (scheduler scheduler' : Sched) (min_loss min_loss' : float)
    (w w' : World) :
  train_epoch tl vl scale alpha beta epoch (scheduler, min_loss) w =
    (inr (scheduler', min_loss'), w') ->
  let a := w_args w in
  let bundle := checkpoint_dict w' min_loss' epoch in
  best_path a <> last_path a /\
  (forall path, path <> best_path a -> path <> last_path a ->
                w_files w' !! path = w_files w !! path) /\
  w_files w' !! last_path a = Some bundle /\
  (PrimFloat.ltb min_loss' min_loss = true -> w_files w' !! best_path a = Some bundle) /\
  (PrimFloat.ltb min_loss' min_loss = false ->
   w_files w' !! best_path a = w_files w !! best_path a).
Proof.
  intros H a bundle. subst a bundle.
  pose proof (best_last_distinct (w_args w)) as Hd.
  apply train_epoch_run in H as (loss_dx & w2 & evs & _ & (Ha & Hf & _) & _ & _ & Hm & Hw').
  subst w'. rewrite checkpoint_dict_saved. split; [exact Hd|].
  destruct (PrimFloat.ltb loss_dx min_loss) eqn:Hlt; subst min_loss'.
  - rewrite checkpoint_dict_saved. unfold saved.
    cbn [w_files w_args record set_files]. rewrite Ha, Hf.
    repeat split.
    + intros path Hb Hl. now rewrite !lookup_insert_ne by congruence.
    + apply lookup_insert_eq.
    + intros _. rewrite lookup_insert_ne by congruence. apply lookup_insert_eq.
    + intros Hno. congruence.
  - unfold saved. cbn [w_files w_args record set_files]. rewrite Ha, Hf.
    repeat split.
    + intros path Hb Hl. now rewrite lookup_insert_ne by congruence.
    + apply lookup_insert_eq.
    + intros Hyes. rewrite ltb_irrefl in Hyes. discriminate.
    + intros _. now rewrite lookup_insert_ne by congruence.
Qed.



(** ** Resuming, and what a run of [train] may change *)

Lemma resume_loads w :
  a_resume (w_args w) <> "" ->
  resume_or_fresh w =
    match w_files w !! a_resume (w_args w) with
    | None => (inl (FileNotFoundError (a_resume (w_args w))),
               record (ELoad (a_resume (w_args w))) w)
    | Some chkpt =>
        (vm <- lift_err (dict_get chkpt "model") ;;
         model_load_state_dict vm ;;
         vo <- lift_err (dict_get chkpt "optimizer") ;;
         optimizer_load_state_dict vo ;;
         ve <- lift_err (dict_get chkpt "epoch") ;;
         start_epoch <- match ve with VInt e => ret (e + 1) | _ => raise TypeError end ;;
         vl <- lift_err (dict_get chkpt "min_loss") ;;
         min_loss <- match vl with VFloat x => ret x | _ => raise TypeError end ;;
         ret (start_epoch, min_loss)) (record (ELoad (a_resume (w_args w))) w)
    end.
Proof.
  intros Hr. unfold resume_or_fresh, bind at 1, get.
  apply String.eqb_neq in Hr. rewrite Hr. cbn [negb].
  unfold torch_load, emit, modify, get, bind at 1 2 3, ret.
  cbn [w_files record]. now destruct (w_files w !! a_resume (w_args w)).
Qed.

(** X8: a run told to resume from a path that holds no file raises
    FileNotFoundError for that path right after the load, before the
    device is decided and before any epoch, and leaves the checkpoints
    and [args] as they were. *)
Theorem resume_without_file (tl vl : Z -> list Batch) (w : World) :
  a_resume (w_args w) <> "" ->
  w_files w !! a_resume (w_args w) = None ->
  exists w',
    train tl vl w = (inl (FileNotFoundError (a_resume (w_args w))), w') /\
    map snd (new_events w w') = [ELoad (a_resume (w_args w))] /\
    w_files w' = w_files w /\
    w_args w' = w_args w.
Proof.
  intros Hr Hf. unfold train. rewrite !bind_modify.
  set (w1 := set_optim _ (set_model _ w)).
  assert (E : resume_or_fresh w1 =
              (inl (FileNotFoundError (a_resume (w_args w))),
               record (ELoad (a_resume (w_args w))) w1)).
  { rewrite (resume_loads w1) by exact Hr. cbn [w_files w_args set_optim set_model] in *.
    subst w1. cbn [w_files w_args set_optim set_model]. now rewrite Hf. }
  erewrite bind_inl by exact E.
  eexists. split; [reflexivity|]. split; [|split; reflexivity].
  erewrite new_events_app by (subst w1; cbn [w_trace record set_optim set_model]; reflexivity).
  reflexivity.
Qed.

(** X9: a checkpoint that lacks one of its entries is refused with
    KeyError for the first missing key, in the order the script reads
    them: model, optimizer, epoch, min_loss.  By the time a later key is
    missed, the network and the optimizer have already been overwritten
    with the state the checkpoint holds. *)
Theorem resume_with_missing_key (w : World) (chkpt : gmap string PyVal) :
  a_resume (w_args w) <> "" ->
  w_files w !! a_resume (w_args w) = Some chkpt ->
  (chkpt !! "model" = None ->
   exists w', resume_or_fresh w = (inl (KeyError "model"), w') /\
              w_model w' = w_model w /\ w_optim w' = w_optim w) /\
  (forall p b, chkpt !! "model" = Some (VModelState p b) ->
   chkpt !! "optimizer" = None ->
   exists w', resume_or_fresh w = (inl (KeyError "optimizer"), w') /\
              m_params (w_model w') = p /\ m_buffers (w_model w') = b /\
              w_optim w' = w_optim w) /\
  (forall p b o, chkpt !! "model" = Some (VModelState p b) ->
   chkpt !! "optimizer" = Some (VOptimState o) ->
   chkpt !! "epoch" = None ->
   exists w', resume_or_fresh w = (inl (KeyError "epoch"), w') /\
              m_params (w_model w') = p /\ m_buffers (w_model w') = b /\
              w_optim w' = o) /\
  (forall p b o e, chkpt !! "model" = Some (VModelState p b) ->
   chkpt !! "optimizer" = Some (VOptimState o) ->
   chkpt !! "epoch" = Some (VInt e) ->
   chkpt !! "min_loss" = None ->
   exists w', resume_or_fresh w = (inl (KeyError "min_loss"), w') /\
              m_params (w_model w') = p /\ m_buffers (w_model w') = b /\
              w_optim w' = o).
Proof.
  intros Hr Hf. rewrite (resume_loads w Hr), Hf. unfold dict_get.
  split; [|split; [|split]].
  - intros ->. eexists. split; [reflexivity|]. split; reflexivity.
  - intros p b -> ->. eexists. split; [reflexivity|]. repeat split.
  - intros p b o -> -> ->. eexists. split; [reflexivity|]. repeat split.
  - intros p b o e -> -> -> ->. eexists. split; [reflexivity|]. repeat split.
Qed.

Lemma py_range_empty (a b : Z) : b <= a -> py_range a b = [].
Proof. intros H. unfold py_range. now replace (Z.to_nat (b - a)) with O by lia. Qed.

(** Epochs that are all done already. *)
Lemma train_epochs_idle (tl vl : Z -> list Batch) (start_epoch : Z) (min_loss : float)
    (w : World) :
  a_epoch (w_args w) <= start_epoch ->
  exists w',
    train_epochs tl vl start_epoch min_loss w = (inr tt, w') /\
    map snd (new_events w w') = [EModelTo (a_device (w_args w))] /\
    m_params (w_model w') = m_params (w_model w) /\
    m_buffers (w_model w') = m_buffers (w_model w) /\
    w_files w' = w_files w.
Proof.
  intros H. unfold train_epochs. cbv zeta.
  unfold bind at 1, get. unfold bind at 1, model_to, modify.
  unfold bind at 1. set (w1 := record (EModelTo _) _).
  destruct (ExponentialLR (w_optim w1) (a_lr_exp_decay (w_args w1))) as [sch o].
  unfold bind at 1, get.
  assert (Ha : w_args (set_optim o w1) = w_args w) by reflexivity.
  rewrite !Ha, (py_range_empty _ _ H). cbn [for_each]. unfold bind, ret.
  eexists. split; [reflexivity|]. split; [|repeat split].
  erewrite new_events_app by (subst w1; cbn [w_trace record set_optim set_model]; reflexivity).
  reflexivity.
Qed.

(** X10: when [args.epoch] does not exceed the start epoch (a run
    resumed from the checkpoint of its last epoch, or [--epoch 0]) no
    epoch runs: the model goes to the device, the scheduler is built,
    and [train] returns without a forward pass, an update of the
    parameters or a saved checkpoint. *)
Theorem no_epoch_left (tl vl : Z -> list Batch) (start_epoch : Z) (min_loss : float)
    (w : World) :
  a_epoch (w_args w) <= start_epoch ->
  exists w',
    train_epochs tl vl start_epoch min_loss w = (inr tt, w') /\
    map snd (new_events w w') = [EModelTo (a_device (w_args w))] /\
    m_params (w_model w') = m_params (w_model w) /\
    m_buffers (w_model w') = m_buffers (w_model w) /\
    w_files w' = w_files w.
Proof. apply train_epochs_idle. Qed.

Lemma resume_or_fresh_keeps_args w0 :
  steps (args_fixed w0) (Forall no_decision) resume_or_fresh.
Proof. steps_go args_side. Qed.

(** X11: [train] changes nothing of [args] but the device: with CUDA
    available [args] is left as it was, and without CUDA it is left as
    it was or (once the checkpoint to resume from is loaded) as it was
    with the device set to "cpu". *)
Theorem train_changes_only_the_device (tl vl : Z -> list Batch) (w : World) :
  let a' := w_args (snd (train tl vl w)) in
  (a' = w_args w \/ (w_cuda w = false /\ a' = set_device "cpu" (w_args w))) /\
  (w_cuda w = true -> a' = w_args w).
Proof.
  intros a'. assert (Hrun : a' = w_args (snd (train tl vl w))) by reflexivity.
  clearbody a'. unfold train in Hrun. rewrite !bind_modify in Hrun.
  set (w1 := set_optim _ (set_model _ w)) in Hrun.
  assert (Ha1 : w_args w1 = w_args w) by reflexivity.
  assert (Hc1 : w_cuda w1 = w_cuda w) by reflexivity.
  clearbody w1.
  destruct (steps_run (resume_or_fresh_keeps_args w1) w1) as ((Ha2 & Hc2) & _);
    [split; reflexivity|].
  unfold bind at 1 in Hrun.
  destruct (resume_or_fresh w1) as [[e|[start_epoch min_loss]] w2]; cbn [snd fst] in *.
  - subst a'. rewrite Ha2, Ha1. split; auto.
  - erewrite bind_inr in Hrun by apply device_fallback_run.
    destruct (steps_run (train_epochs_steps (after_fallback w2) tl vl start_epoch min_loss)
                        (after_fallback w2)) as ((Ha3 & _) & _); [split; reflexivity|].
    rewrite <- Hrun in Ha3. rewrite Ha3. unfold after_fallback.
    rewrite Hc2, Hc1.
    destruct (w_cuda w); cbn [w_args record set_args]; rewrite Ha2, Ha1.
    + split; auto.
    + split; [right; auto | discriminate].
Qed.

Lemma best_path_same a a0 :
  a_checkpoint_dir a = a_checkpoint_dir a0 ->
  a_checkpoint_name a = a_checkpoint_name a0 ->
  best_path a = best_path a0 /\ last_path a = last_path a0.
Proof. intros Hd Hn. unfold best_path, last_path. now rewrite Hd, Hn. Qed.

Ltac files_side :=
  first
    [ solve [ repeat constructor ]
    | solve [ unfold only_checkpoints_written in *;
              cbn [w_args w_files record set_args set_grad_enabled set_model set_optim
                   set_files set_device a_checkpoint_dir a_checkpoint_name] in *;
              repeat match goal with H : _ /\ _ |- _ => destruct H end;
              repeat split; try congruence; auto;
              intros;
              repeat match goal with
                | Hd : a_checkpoint_dir (w_args ?a) = a_checkpoint_dir (w_args ?a0),
                  Hn : a_checkpoint_name (w_args ?a) = a_checkpoint_name (w_args ?a0)
                  |- context [best_path (w_args ?a)] =>
                    rewrite (proj1 (best_path_same _ _ Hd Hn))
                | Hd : a_checkpoint_dir (w_args ?a) = a_checkpoint_dir (w_args ?a0),
                  Hn : a_checkpoint_name (w_args ?a) = a_checkpoint_name (w_args ?a0)
                  |- context [last_path (w_args ?a)] =>
                    rewrite (proj2 (best_path_same _ _ Hd Hn))
                end;
              rewrite ?lookup_insert_ne by congruence; auto ] ].

Lemma train_files_steps w0 tl vl :
  steps (only_checkpoints_written w0) (Forall any_event) (train tl vl).
Proof. steps_go files_side. Qed.

(** X12: over a whole run of [train], whether it returns or raises,
    [torch.save] writes to the [_best] and the [_last] path only: at
    every other path, what [torch.load] sees is what it saw before the
    run (the log file, which goes through the logger, is not part of
    this). *)
Theorem train_writes_only_the_checkpoints (tl vl : Z -> list Batch) (w : World)
    (path : string) :
  path <> best_path (w_args w) ->
  path <> last_path (w_args w) ->
  w_files (snd (train tl vl w)) !! path = w_files w !! path.
Proof.
  intros Hb Hl.
  destruct (steps_run (train_files_steps w tl vl) w) as ((_ & _ & H) & _).
  - unfold only_checkpoints_written. auto.
  - now apply H.
Qed.

(** ** A whole run *)







(** ** The schedule of an epoch *)

Lemma kinds_of_app evs1 evs2 : kinds_of (evs1 ++ evs2) = kinds_of evs1 ++ kinds_of evs2.
Proof. unfold kinds_of. now rewrite !map_app. Qed.

Lemma kinds_of_pair ge evs : kinds_of (map (pair ge) evs) = map kind_of evs.
Proof. unfold kinds_of. now rewrite map_snd_pair. Qed.

Lemma train_loop_kinds scale alpha beta batches : forall tot w r w',
  for_each batches (train_batch scale alpha beta) tot w = (inr r, w') ->
  w_args w' = w_args w /\
  exists evs, w_trace w' = w_trace w ++ evs /\
    kinds_of evs =
      concat (repeat (train_batch_kinds (Z.to_nat (a_inner_iter (w_args w))))
                     (length batches)).
Proof.
  induction batches as [|batch rest IH]; intros tot w r w' H; cbn [for_each] in H.
  - inversion H; subst. split; [reflexivity|]. exists []. now rewrite app_nil_r.
  - apply bind_inv in H as (r1 & w1 & Hb & H).
    destruct (index0 (b_InTran batch)) as [e|K] eqn:E.
    + rewrite (train_batch_no_intrinsics scale alpha beta batch tot w e E) in Hb.
      discriminate.
    + rewrite (train_batch_run scale alpha beta batch tot w K E) in Hb.
      inversion Hb; subst. clear Hb.
      apply IH in H as (Ha & evs & Ht & Hk).
      assert (Ha1 : w_args (after_train_batch scale alpha beta batch K w) = w_args w)
        by reflexivity.
      rewrite Ha1 in Ha, Hk. split; [exact Ha|].
      eexists. split.
      * rewrite Ht. unfold after_train_batch. cbn [w_trace].
        rewrite <- app_assoc. reflexivity.
      * rewrite kinds_of_app, kinds_of_pair, Hk. cbn [length repeat concat]. f_equal.
        unfold train_batch_events, train_batch_kinds.
        rewrite !map_app. cbn [map kind_of].
        now rewrite (proj1 (batch_trajectory_facts batch K w)).
Qed.

Lemma val_loop_kinds loader : forall tot w r w',
  for_each loader val_batch tot w = (inr r, w') ->
  w_args w' = w_args w /\
  exists evs, w_trace w' = w_trace w ++ evs /\
    kinds_of evs =
      concat (repeat (val_batch_kinds (Z.to_nat (a_inner_iter (w_args w))))
                     (length loader)).
Proof.
  induction loader as [|batch rest IH]; intros tot w r w' H; cbn [for_each] in H.
  - inversion H; subst. split; [reflexivity|]. exists []. now rewrite app_nil_r.
  - apply bind_inv in H as (r1 & w1 & Hb & H).
    destruct (index0 (b_InTran batch)) as [e|K] eqn:E.
    + rewrite (val_batch_no_intrinsics batch tot w e E) in Hb. discriminate.
    + rewrite (val_batch_run batch tot w K E) in Hb.
      inversion Hb; subst. clear Hb.
      apply IH in H as (Ha & evs & Ht & Hk).
      match type of Ha with _ = w_args ?w1 =>
        assert (Ha1 : w_args w1 = w_args w) by reflexivity end.
      rewrite Ha1 in Ha, Hk. split; [exact Ha|].
      eexists. split.
      * rewrite Ht. unfold advance. cbn [w_trace].
        rewrite <- app_assoc. reflexivity.
      * rewrite kinds_of_app, kinds_of_pair, Hk. cbn [length repeat concat]. f_equal.
        unfold val_batch_kinds.
        cbn [map kind_of]. rewrite map_app. cbn [map kind_of].
        now rewrite (proj1 (batch_trajectory_facts batch K w)).
Qed.

Lemma val_kinds loader w r w' :
  val loader w = (inr r, w') ->
  w_args w' = w_args w /\
  exists evs, w_trace w' = w_trace w ++ evs /\
    kinds_of evs =
      KModelEval ::
      concat (repeat (val_batch_kinds (Z.to_nat (a_inner_iter (w_args w)))) (length loader)).
Proof.
  unfold val, no_grad, model_eval. rewrite bind_modify.
  set (w1 := record EModelEval _).
  assert (Ha1 : w_args w1 = w_args w) by reflexivity.
  assert (Ht1 : w_trace w1 = w_trace w ++ [(false, EModelEval)]) by reflexivity.
  clearbody w1.
  match goal with |- (let (_, _) := ?m w1 in _) = _ -> _ => destruct (m w1) as [r2 w2] eqn:Hm end.
  intros H. inversion H; subst. clear H.
  apply bind_inv in Hm as (tot & wa & Hl & Hm).
  apply bind_inv in Hm as (dR & wb & H1 & Hm). apply lift_err_inv in H1 as (_ & ->).
  apply bind_inv in Hm as (dT & wc & H2 & Hm). apply lift_err_inv in H2 as (_ & ->).
  inversion Hm; subst. clear Hm.
  apply val_loop_kinds in Hl as (Ha & evs & Ht & Hk).
  cbn [w_args w_trace set_grad_enabled]. split; [congruence|].
  exists ((false, EModelEval) :: evs). split.
  - rewrite Ht, Ht1, <- app_assoc. reflexivity.
  - change ((false, EModelEval) :: evs) with ([(false, EModelEval)] ++ evs).
    rewrite kinds_of_app, Hk, Ha1. reflexivity.
Qed.

Lemma epoch_work_kinds tl vl scale alpha beta epoch scheduler w r w' :
  epoch_work tl vl scale alpha beta epoch scheduler w = (inr r, w') ->
  exists evs, w_trace w' = w_trace w ++ evs /\
    kinds_of evs =
      KModelTrain ::
      concat (repeat (train_batch_kinds (Z.to_nat (a_inner_iter (w_args w))))
                     (length (tl epoch))) ++
      [KSchedStep; KModelEval] ++
      concat (repeat (val_batch_kinds (Z.to_nat (a_inner_iter (w_args w))))
                     (length (vl epoch))).
Proof.
  unfold epoch_work. cbv zeta. unfold model_train. rewrite bind_modify.
  set (w1 := record EModelTrain _).
  assert (Ha1 : w_args w1 = w_args w) by reflexivity.
  assert (Ht1 : w_trace w1 = w_trace w ++ [(w_grad_enabled w, EModelTrain)]) by reflexivity.
  clearbody w1. intros H.
  apply bind_inv in H as ([[t1 t2] t3] & wa & Hl & H).
  apply bind_inv in H as (x1 & wb & H1 & H). apply lift_err_inv in H1 as (_ & ->).
  apply bind_inv in H as (x2 & wc & H2 & H). apply lift_err_inv in H2 as (_ & ->).
  apply bind_inv in H as (x3 & wd & H3 & H). apply lift_err_inv in H3 as (_ & ->).
  apply bind_inv in H as (sch & we & Hs & H).
  apply bind_inv in H as (rv & wf & Hv & H).
  inversion H; subst. clear H.
  apply train_loop_kinds in Hl as (Ha & evs & Ht & Hk).
  unfold scheduler_step in Hs. destruct (sched_step scheduler (w_optim wa)) as [s' o].
  inversion Hs; subst. clear Hs.
  apply val_kinds in Hv as (Hav & evs' & Htv & Hkv).
  cbn [w_args w_trace record set_optim] in Htv, Hkv.
  eexists. split.
  - rewrite Htv, Ht, Ht1, <- !app_assoc. reflexivity.
  - rewrite !kinds_of_app, Hk, Hkv, Ha, Ha1. reflexivity.
Qed.

(** X19: the schedule of an epoch that ends normally, by the kinds of
    its events: the network goes to training mode; every training batch
    zeroes the gradients, builds the generator, runs [inner_iter]
    iterations of prediction, exponential map and reprojection, takes
    the two losses, backpropagates and makes one optimizer step; the
    scheduler then steps once, after all optimizer steps of the epoch;
    the validation follows in evaluation mode, every batch ending with
    the geodesic distance; the [_best] checkpoint is written when
    [min_loss] has gone down, and the [_last] one always. *)
Theorem epoch_schedule (tl vl : Z -> list Batch) (scale alpha beta : float)
    (epoch : Z) (scheduler scheduler' : Sched) (min_loss min_loss' : float)
    (w w' : World) :
  train_epoch tl vl scale alpha beta epoch (scheduler, min_loss) w =
    (inr (scheduler', min_loss'), w') ->
  map kind_of (map snd (new_events w w')) =
    epoch_kinds (Z.to_nat (a_inner_iter (w_args w))) (length (tl epoch))
                (length (vl epoch)) (PrimFloat.ltb min_loss' min_loss).
Proof.
  intros H.
  apply train_epoch_run in H as (loss_dx & w2 & evs0 & Hw & _ & _ & _ & Hm & Hw').
  apply epoch_work_kinds in Hw as (evs & Ht & Hk).
  fold (kinds_of (new_events w w')). unfold epoch_kinds. subst w'.
  destruct (PrimFloat.ltb loss_dx min_loss) eqn:Hlt; subst min_loss'.
  - rewrite Hlt.
    erewrite new_events_app
      by (unfold saved; cbn [w_trace record set_files]; rewrite Ht, <- !app_assoc;
          reflexivity).
    rewrite !kinds_of_app, Hk. cbn [app]. rewrite <- !app_assoc. reflexivity.
  - rewrite ltb_irrefl.
    erewrite new_events_app
      by (unfold saved; cbn [w_trace record set_files]; rewrite Ht, <- !app_assoc;
          reflexivity).
    rewrite !kinds_of_app, Hk. cbn [app]. rewrite <- !app_assoc. reflexivity.
Qed.

(** ** The device of the network *)

Ltac device_side :=
  first [ solve [ unfold on_device in *; cbn in *; intuition congruence ]
        | solve [ repeat constructor ] ].

Lemma epochs_keep_device d tl vl scale alpha beta epochs st :
  steps (on_device d) (Forall any_event)
        (for_each epochs (train_epoch tl vl scale alpha beta) st).
Proof. steps_go device_side. Qed.

Lemma resume_fresh w :
  a_resume (w_args w) = "" -> resume_or_fresh w = (inr (0, PrimFloat.infinity), w).
Proof.
  intros E. unfold resume_or_fresh, bind, get. rewrite E. reflexivity.
Qed.

Lemma train_epochs_device tl vl start_epoch min_loss w :
  let w' := snd (train_epochs tl vl start_epoch min_loss w) in
  m_device (w_model w') = a_device (w_args w) /\ w_args w' = w_args w.
Proof.
  intros w'.
  destruct (steps_run (train_epochs_steps w tl vl start_epoch min_loss) w) as ((Ha & _) & _);
    [split; reflexivity|].
  split; [|exact Ha]. subst w'. clear Ha.
  unfold train_epochs. cbv zeta.
  unfold bind at 1, get. unfold bind at 1, model_to, modify.
  unfold bind at 1. set (w1 := record (EModelTo _) _).
  destruct (ExponentialLR (w_optim w1) (a_lr_exp_decay (w_args w1))) as [sch o].
  unfold bind at 1, get.
  set (w2 := set_optim o w1).
  assert (Hd : on_device (a_device (w_args w)) w2) by reflexivity.
  clearbody w2.
  match goal with |- context [for_each ?es ?f ?st] =>
    pose proof (steps_run (epochs_keep_device (a_device (w_args w)) tl vl
                             (a_scale (w_args w2)) (a_alpha (w_args w2)) (a_beta (w_args w2))
                             es st) w2 Hd) as (H & _) end.
  unfold bind, ret.
  destruct (for_each _ _ _ w2) as [[e|r] w3]; exact H.
Qed.

Lemma train_device tl vl w :
  exists w1, w_args w1 = w_args w /\
    match resume_or_fresh w1 with
    | (inl e, w2) =>
        train tl vl w = (inl e, w2) /\
        Forall (fun ev => kind_of ev = KLoad) (map snd (new_events w w2))
    | (inr _, _) =>
        let w' := snd (train tl vl w) in
        m_device (w_model w') = a_device (w_args w') /\
        a_device (w_args w') = (if w_cuda w then a_device (w_args w) else "cpu")
    end.
Proof.
  unfold train. rewrite !bind_modify.
  set (w1 := set_optim _ (set_model _ w)).
  assert (Ht1 : w_trace w1 = w_trace w) by reflexivity.
  assert (Hc1 : w_cuda w1 = w_cuda w) by reflexivity.
  assert (Ha1 : w_args w1 = w_args w) by reflexivity.
  clearbody w1. exists w1. split; [exact Ha1|].
  destruct (steps_run (resume_or_fresh_steps w1) w1) as (Hc2 & evs1 & Ht2 & Hl);
    [reflexivity|].
  destruct (steps_run (resume_or_fresh_keeps_args w1) w1) as ((Ha2 & _) & _);
    [split; reflexivity|].
  destruct (resume_or_fresh w1) as [[e|[start_epoch min_loss]] w2] eqn:Hr; cbn [snd fst] in *.
  - erewrite bind_inl by exact Hr. split; [reflexivity|].
    rewrite (new_events_app w w2 evs1) by now rewrite Ht2, Ht1.
    now apply Forall_map_snd.
  - erewrite bind_inr by exact Hr. cbv beta iota.
    erewrite bind_inr by apply device_fallback_run.
    destruct (train_epochs_device tl vl start_epoch min_loss (after_fallback w2)) as (Hd & Ha).
    cbv zeta. rewrite Hd, Ha. split; [reflexivity|].
    unfold after_fallback, cuda_fixed in *. rewrite Hc2, Hc1.
    destruct (w_cuda w); cbn [w_args record set_args set_device a_device]; [|reflexivity].
    now rewrite Ha2, Ha1.
Qed.

(** X20: once the checkpoint to resume from is loaded (at once, for a
    run that does not resume), the network is moved to the device the
    run has decided on, and it stays there through all epochs, whether
    the run returns or raises: in the end the network is on
    [args.device], which is "cpu" when CUDA is not available and the
    device of the command line otherwise.  The only runs for which this
    fails are those that raise while loading the checkpoint. *)
Theorem model_goes_to_the_decided_device (tl vl : Z -> list Batch) (w : World) :
  let run := train tl vl w in
  let w' := snd run in
  let settled :=
    m_device (w_model w') = a_device (w_args w') /\
    a_device (w_args w') = (if w_cuda w then a_device (w_args w) else "cpu") in
  (settled \/
   exists e, fst run = inl e /\
             Forall (fun ev => kind_of ev = KLoad) (map snd (new_events w w'))) /\
  (a_resume (w_args w) = "" -> settled).
Proof.
  intros run w' settled. subst settled w' run.
  destruct (train_device tl vl w) as (w1 & Ha & H). split.
  - destruct (resume_or_fresh w1) as [[e|r] w2].
    + right. destruct H as (Ht & Hl). exists e. rewrite Ht. split; [reflexivity | exact Hl].
    + left. exact H.
  - intros E. rewrite (resume_fresh w1) in H by congruence. exact H.
Qed.

End Properties.

(** ** The batches of the data loaders *)

Lemma mod_past_full (b n k : nat) :
  (k <> 0 -> b + 1 = k -> (b + S n) mod k = n mod k)%nat.
Proof.
  intros Hk Hb. replace (b + S n)%nat with (n + 1 * k)%nat by lia.
  now rewrite Nat.Div0.mod_add.
Qed.

(** Every delivered batch is full, or it is the remainder, which is
    delivered only when [drop_last] is off. *)
Lemma batch_sampler_lengths (k : nat) (drop_last : bool) :
  (0 < k)%nat ->
  forall sampler batch,
    (length batch < k)%nat ->
    Forall (fun b => length b = k \/
                     (drop_last = false /\
                      length b = ((length batch + length sampler) mod k)%nat /\
                      length b <> O))
           (batch_sampler k drop_last sampler batch).
Proof.
  intros Hk. induction sampler as [|idx rest IH]; intros batch Hb; cbn [batch_sampler].
  - destruct drop_last; cbn [negb]; rewrite ?andb_false_r, ?andb_true_r.
    + constructor.
    + destruct (Nat.ltb_spec 0 (length batch)); constructor; [|constructor].
      right. cbn [length]. rewrite Nat.add_0_r, Nat.mod_small by lia. repeat split; lia.
  - rewrite length_app. cbn [length].
    destruct (Nat.eqb_spec (length batch + 1) k) as [E|E].
    + constructor.
      * left. now rewrite length_app.
      * specialize (IH [] Hk). cbn [length] in IH.
        eapply List.Forall_impl; [|exact IH]. cbn beta.
        intros b [Hf|(Hd & Hm & Hn)]; [now left|right].
        repeat split; try assumption.
        rewrite Hm. cbn [Nat.add]. symmetry. apply mod_past_full; lia.
    + specialize (IH (batch ++ [idx])). rewrite length_app in IH. cbn [length] in IH.
      specialize (IH ltac:(lia)).
      eapply List.Forall_impl; [|exact IH]. cbn beta.
      intros b [Hf|(Hd & Hm & Hn)]; [now left|right].
      repeat split; try assumption.
      rewrite Hm. f_equal. lia.
Qed.

(** How many samples are delivered: all of them, less the remainder
    when [drop_last] is on. *)
Lemma batch_sampler_delivered (k : nat) (drop_last : bool) :
  (0 < k)%nat ->
  forall sampler batch,
    (length batch < k)%nat ->
    (length (concat (batch_sampler k drop_last sampler batch)) +
     (if drop_last then (length batch + length sampler) mod k else 0) =
     length batch + length sampler)%nat.
Proof.
  intros Hk. induction sampler as [|idx rest IH]; intros batch Hb; cbn [batch_sampler].
  - cbn [length]. rewrite Nat.add_0_r.
    destruct drop_last; cbn [negb]; rewrite ?andb_false_r, ?andb_true_r.
    + cbn [concat length]. rewrite Nat.mod_small by lia. lia.
    + destruct (Nat.ltb_spec 0 (length batch)); cbn [concat length];
        rewrite ?app_nil_r; lia.
  - rewrite length_app. cbn [length].
    destruct (Nat.eqb_spec (length batch + 1) k) as [E|E].
    + cbn [concat]. rewrite !length_app. cbn [length].
      specialize (IH [] Hk). cbn [length Nat.add] in IH.
      destruct drop_last.
      * rewrite (mod_past_full (length batch) (length rest) k) by lia. lia.
      * lia.
    + specialize (IH (batch ++ [idx])). rewrite length_app in IH. cbn [length] in IH.
      specialize (IH ltac:(lia)).
      replace (length batch + S (length rest))%nat
        with (length batch + 1 + length rest)%nat by lia.
      exact IH.
Qed.

(** C10 (as amended): the loaders are built with [drop_last] on exactly
    when the dataset length modulo the batch size is 1, so that for a
    batch size of at least 2 every delivered batch is full or holds the
    remainder of at least 2 samples; no batch of one sample is delivered,
    and one sample is left out exactly when the remainder is 1. *)
Theorem no_batch_of_one (len batch_size : Z) :
  0 <= len ->
  2 <= batch_size ->
  exists batches : list (list nat),
    drop_last_flag len batch_size = inr (len mod batch_size =? 1)%Z /\
    main_loader len batch_size = inr batches /\
    Forall (fun b => Z.of_nat (length b) = batch_size \/
                     (Z.of_nat (length b) = len mod batch_size /\
                      2 <= len mod batch_size)) batches /\
    Forall (fun b => length b <> 1%nat) batches /\
    Z.of_nat (length (concat batches)) =
      len - (if (len mod batch_size =? 1)%Z then 1 else 0).
Proof.
  intros Hlen Hbs. unfold main_loader, drop_last_flag, DataLoader.
  destruct (Z.eqb_spec batch_size 0) as [E|_]; [lia|].
  destruct (Z.leb_spec batch_size 0) as [E|_]; [lia|].
  eexists. split; [reflexivity|]. split; [reflexivity|].
  set (k := Z.to_nat batch_size). set (n := Z.to_nat len).
  assert (Hk : (0 < k)%nat) by (subst k; lia).
  assert (Hmod : Z.of_nat (n mod k) = len mod batch_size).
  { subst n k. rewrite Nat2Z.inj_mod, !Z2Nat.id by lia. reflexivity. }
  pose proof (batch_sampler_lengths k (len mod batch_size =? 1)%Z Hk (seq 0 n) []
                ltac:(cbn; lia)) as HL.
  pose proof (batch_sampler_delivered k (len mod batch_size =? 1)%Z Hk (seq 0 n) []
                ltac:(cbn; lia)) as HD.
  rewrite length_seq in HL, HD. cbn [length Nat.add] in HL, HD.
  assert (H3 : Forall (fun b => Z.of_nat (length b) = batch_size \/
                     (Z.of_nat (length b) = len mod batch_size /\
                      2 <= len mod batch_size))
                 (batch_sampler k (len mod batch_size =? 1)%Z (seq 0 n) [])).
  { eapply List.Forall_impl; [|exact HL]. cbn beta.
    intros b [Hf|(Hd & Hm & Hn)].
    - left. subst k. lia.
    - right. apply Z.eqb_neq in Hd. rewrite Hm, Hmod. split; [reflexivity|].
      assert (len mod batch_size <> 0) by (rewrite <- Hmod, <- Hm; lia).
      pose proof (Z.mod_pos_bound len batch_size ltac:(lia)). lia. }
  split; [exact H3|]. split.
  - eapply List.Forall_impl; [|exact H3]. cbn beta. intros b Hb. lia.
  - destruct (Z.eqb_spec (len mod batch_size) 1) as [E1|E1].
    + assert (n mod k = 1)%nat by lia. subst n. lia.
    + subst n. lia.
Qed.

(** With a batch size of 1 the remainder is never 1, nothing is
    dropped, and every batch holds one sample. *)
Lemma batch_size_one_delivers_singletons :
  main_loader 3 1 = inr [[0]; [1]; [2]]%nat /\
  ~ Forall (fun b : list nat => length b <> 1%nat) [[0]; [1]; [2]]%nat.
Proof.
  split; [reflexivity|]. intros H. inversion H as [|b l Hb _]; subst. now apply Hb.
Qed.

(** The delivered samples are the sampler's, in its order, up to what
    is dropped at the end. *)
Lemma batch_sampler_order (k : nat) (drop_last : bool) :
  forall sampler batch,
    exists dropped,
      batch ++ sampler = concat (batch_sampler k drop_last sampler batch) ++ dropped.
Proof.
  induction sampler as [|idx rest IH]; intros batch; cbn [batch_sampler].
  - destruct (andb _ _); cbn [concat].
    + exists []. now rewrite !app_nil_r.
    + exists batch. now rewrite app_nil_r.
  - destruct (Nat.eqb _ _).
    + destruct (IH []) as [d Hd]. exists d. cbn [concat].
      rewrite <- !app_assoc. cbn [app] in *. now rewrite <- Hd.
    + destruct (IH (batch ++ [idx])) as [d Hd]. exists d.
      rewrite <- Hd, <- app_assoc. reflexivity.
Qed.

Lemma seq_prefix (l d : list nat) :
  forall s n, seq s n = l ++ d -> l = seq s (length l).
Proof.
  induction l as [|a l IH]; intros s n H; [reflexivity|].
  destruct n as [|n]; [discriminate|]. cbn [seq app length] in *.
  injection H as -> H. f_equal. now apply (IH (S a) n).
Qed.

(** X13: for a batch size of at least 1 the batches, read one after
    the other, are the samples 0, 1, 2, ... of the dataset in order and
    without repetition; all of them, except that the last sample is left
    out when the dataset length modulo the batch size is 1. *)
Theorem loader_keeps_the_order (len batch_size : Z) :
  0 <= len ->
  1 <= batch_size ->
  exists batches : list (list nat),
    main_loader len batch_size = inr batches /\
    concat batches =
      seq 0 (Z.to_nat (len - (if (len mod batch_size =? 1)%Z then 1 else 0))).
Proof.
  intros Hlen Hbs. unfold main_loader, drop_last_flag, DataLoader.
  destruct (Z.eqb_spec batch_size 0) as [E|_]; [lia|].
  destruct (Z.leb_spec batch_size 0) as [E|_]; [lia|].
  eexists. split; [reflexivity|].
  set (k := Z.to_nat batch_size). set (n := Z.to_nat len).
  assert (Hk : (0 < k)%nat) by (subst k; lia).
  assert (Hmod : Z.of_nat (n mod k) = len mod batch_size).
  { subst n k. rewrite Nat2Z.inj_mod, !Z2Nat.id by lia. reflexivity. }
  pose proof (batch_sampler_delivered k (len mod batch_size =? 1)%Z Hk (seq 0 n) []
                ltac:(cbn; lia)) as HD.
  rewrite length_seq in HD. cbn [length Nat.add] in HD.
  destruct (batch_sampler_order k (len mod batch_size =? 1)%Z (seq 0 n) []) as [d Hd].
  cbn [app] in Hd. rewrite (seq_prefix _ _ _ _ Hd) at 1. f_equal.
  destruct (Z.eqb_spec (len mod batch_size) 1) as [E1|E1].
  - assert (n mod k = 1)%nat by lia. subst n. lia.
  - subst n. lia.
Qed.

(** The number of delivered batches. *)
Lemma batch_sampler_count (k : nat) (drop_last : bool) :
  (0 < k)%nat ->
  forall sampler batch,
    (length batch < k)%nat ->
    length (batch_sampler k drop_last sampler batch) =
      ((length batch + length sampler) / k +
       (if andb (Nat.ltb 0 ((length batch + length sampler) mod k)) (negb drop_last)
        then 1 else 0))%nat.
Proof.
  intros Hk. induction sampler as [|idx rest IH]; intros batch Hb; cbn [batch_sampler].
  - cbn [length]. rewrite Nat.add_0_r, Nat.div_small, Nat.mod_small by lia.
    now destruct (andb _ _).
  - rewrite length_app. cbn [length].
    destruct (Nat.eqb_spec (length batch + 1) k) as [E|E].
    + cbn [length]. rewrite (IH [] Hk). cbn [length Nat.add].
      rewrite (mod_past_full (length batch) (length rest) k) by lia.
      replace (length batch + S (length rest))%nat with (length rest + 1 * k)%nat by lia.
      rewrite Nat.div_add by lia. lia.
    + rewrite (IH (batch ++ [idx])) by (rewrite length_app; cbn [length]; lia).
      rewrite length_app. cbn [length].
      replace (length batch + 1 + length rest)%nat
        with (length batch + S (length rest))%nat by lia.
      reflexivity.
Qed.

(** X14: the loader delivers one batch per full batch and one more for
    a remainder of at least 2; it delivers no batch at all exactly when
    the dataset is empty or holds a single sample with a batch size of
    at least 2. *)
Theorem loader_batch_count (len batch_size : Z) :
  0 <= len ->
  1 <= batch_size ->
  exists batches : list (list nat),
    main_loader len batch_size = inr batches /\
    Z.of_nat (length batches) =
      len / batch_size + (if (2 <=? len mod batch_size)%Z then 1 else 0) /\
    (batches = [] <-> len = 0 \/ (len = 1 /\ 2 <= batch_size)).
Proof.
  intros Hlen Hbs. unfold main_loader, drop_last_flag, DataLoader.
  destruct (Z.eqb_spec batch_size 0) as [E|_]; [lia|].
  destruct (Z.leb_spec batch_size 0) as [E|_]; [lia|].
  eexists. split; [reflexivity|].
  set (k := Z.to_nat batch_size). set (n := Z.to_nat len).
  assert (Hk : (0 < k)%nat) by (subst k; lia).
  assert (Hmod : Z.of_nat (n mod k) = len mod batch_size).
  { subst n k. rewrite Nat2Z.inj_mod, !Z2Nat.id by lia. reflexivity. }
  assert (Hdiv : Z.of_nat (n / k) = len / batch_size).
  { subst n k. rewrite Nat2Z.inj_div, !Z2Nat.id by lia. reflexivity. }
  pose proof (batch_sampler_count k (len mod batch_size =? 1)%Z Hk (seq 0 n) []
                ltac:(cbn; lia)) as HC.
  rewrite length_seq in HC. cbn [length Nat.add] in HC.
  pose proof (Z.mod_pos_bound len batch_size ltac:(lia)) as Hb.
  assert (Hcount : Z.of_nat (length (batch_sampler k (len mod batch_size =? 1)%Z (seq 0 n) [])) =
                   len / batch_size + (if (2 <=? len mod batch_size)%Z then 1 else 0)).
  { rewrite HC, Nat2Z.inj_add, Hdiv. f_equal.
    destruct (Z.leb_spec 2 (len mod batch_size)) as [H2|H2];
      destruct (Z.eqb_spec (len mod batch_size) 1) as [E1|E1];
      destruct (Nat.ltb_spec 0 (n mod k)); cbn [andb negb]; lia. }
  split; [exact Hcount|].
  rewrite <- length_zero_iff_nil.
  set (L := length (batch_sampler k (len mod batch_size =? 1)%Z (seq 0 n) [])) in *.
  clearbody L.
  pose proof (Z.div_mod len batch_size ltac:(lia)) as Hdm.
  pose proof (Z.div_pos len batch_size ltac:(lia) ltac:(lia)) as Hq.
  split.
  - intros H0. rewrite H0 in Hcount. cbn [Z.of_nat] in Hcount.
    destruct (Z.leb_spec 2 (len mod batch_size)); [lia|].
    assert (len / batch_size = 0) by lia. nia.
  - intros [H0|[H1 H2]].
    + assert (len / batch_size = 0 /\ len mod batch_size = 0) as [Eq Em]
        by (rewrite H0, Z.div_0_l, Z.mod_0_l by lia; split; reflexivity).
      rewrite Eq, Em in Hcount. change (2 <=? 0)%Z with false in Hcount. cbv iota in Hcount. lia.
    + assert (len / batch_size = 0 /\ len mod batch_size = 1) as [Eq Em]
        by (rewrite H1, Z.div_small, Z.mod_small by lia; split; reflexivity).
      rewrite Eq, Em in Hcount. change (2 <=? 1)%Z with false in Hcount. cbv iota in Hcount. lia.
Qed.

(** X15: given a dataset of [len] samples, the construction of a loader
    (lines 204-209) fails with ZeroDivisionError for a batch size of 0
    (the script's own modulo, before [DataLoader] is reached), with
    [DataLoader]'s ValueError for a negative batch size, and succeeds
    for every positive one. *)
Theorem loader_rejects_bad_batch_sizes (len batch_size : Z) :
  (batch_size = 0 -> main_loader len batch_size = inl ZeroDivisionError) /\
  (batch_size < 0 -> main_loader len batch_size = inl ValueError) /\
  (0 < batch_size -> exists batches, main_loader len batch_size = inr batches).
Proof.
  unfold main_loader, drop_last_flag, DataLoader.
  destruct (Z.eqb_spec batch_size 0) as [E|E];
    destruct (Z.leb_spec batch_size 0) as [L|L];
    repeat split; intros H; try lia; try reflexivity; eexists; reflexivity.
Qed.

(** ** The names of the sequences *)

Lemma pretty_N_char_nonzero x : (0 < x < 10)%N -> nonzero_digit (pretty_N_char x).
Proof.
  intros H. unfold nonzero_digit.
  assert (x = 1 \/ x = 2 \/ x = 3 \/ x = 4 \/ x = 5 \/ x = 6 \/ x = 7 \/ x = 8 \/ x = 9)%N
    as Hx by lia.
  repeat destruct Hx as [->|Hx]; try subst x; cbn; tauto.
Qed.

Lemma pretty_N_go_head x : forall s,
  (0 < x)%N -> exists c rest, pretty_N_go x s = String c rest /\ nonzero_digit c.
Proof.
  induction (N.lt_wf_0 x) as [x _ IH]. intros s Hx.
  rewrite pretty_N_go_step by assumption.
  destruct (N.eq_dec (x `div` 10)%N 0%N) as [E|E].
  - rewrite E, pretty_N_go_0. eexists _, _. split; [reflexivity|].
    apply pretty_N_char_nonzero.
    pose proof (N.Div0.div_mod x 10) as Hd. rewrite E in Hd.
    pose proof (N.mod_upper_bound x 10). lia.
  - apply IH; [apply N.div_lt; lia | now apply N.neq_0_lt_0].
Qed.

Lemma pretty_Z_cases (i : Z) :
  (i = 0 /\ pretty i = "0") \/
  (0 < i /\ exists c rest, pretty i = String c rest /\ nonzero_digit c) \/
  (i < 0 /\ exists rest, pretty i = String "-" rest).
Proof.
  destruct i as [|p|p].
  - left. split; reflexivity.
  - right. left. split; [lia|].
    change (pretty (Z.pos p)) with (pretty_N_go (N.pos p) "").
    apply pretty_N_go_head. lia.
  - right. right. split; [lia|]. eexists. reflexivity.
Qed.

Lemma pretty_Z_head_zero (i : Z) rest : pretty i = String "0" rest -> i = 0.
Proof.
  intros H. destruct (pretty_Z_cases i) as [[-> _]|[(_ & c & r & Hp & Hc)|(_ & r & Hp)]].
  - reflexivity.
  - rewrite Hp in H. inversion H; subst. unfold nonzero_digit in Hc. cbn in Hc.
    repeat destruct Hc as [Hc|Hc]; try discriminate; contradiction.
  - rewrite Hp in H. discriminate.
Qed.

Lemma pretty_Z_nonempty (i : Z) : pretty i <> "".
Proof.
  destruct (pretty_Z_cases i) as [[_ H]|[(_ & c & r & H & _)|(_ & r & H)]];
    rewrite H; discriminate.
Qed.

Lemma rjust_2_cases (c : ascii) (s : string) :
  s <> "" ->
  (exists a, s = String a "" /\ rjust 2 c s = String c s) \/
  ((2 <= String.length s)%nat /\ rjust 2 c s = s).
Proof.
  intros Hs. destruct s as [|a [|b r]]; [congruence| |].
  - left. exists a. split; reflexivity.
  - right. split; [cbn; lia | reflexivity].
Qed.

Lemma split_name_inj (i j : Z) : split_name i = split_name j -> i = j.
Proof.
  unfold split_name. intros H.
  destruct (rjust_2_cases "0" (pretty i) (pretty_Z_nonempty i)) as [(a & Ha & Hi)|(Hli & Hi)];
  destruct (rjust_2_cases "0" (pretty j) (pretty_Z_nonempty j)) as [(b & Hb & Hj)|(Hlj & Hj)];
    rewrite Hi, Hj in H.
  - inversion H as [H1]. now apply (inj pretty).
  - symmetry in H. apply pretty_Z_head_zero in H as Hj0. subst j.
    cbn in Hlj. lia.
  - apply pretty_Z_head_zero in H as Hi0. subst i. cbn in Hli. lia.
  - now apply (inj pretty).
Qed.

Lemma split_name_length (i : Z) :
  String.length (split_name i) = Nat.max 2 (String.length (pretty i)).
Proof.
  unfold split_name.
  destruct (rjust_2_cases "0" (pretty i) (pretty_Z_nonempty i)) as [(a & Ha & Hi)|(Hli & Hi)];
    rewrite Hi.
  - rewrite Ha. reflexivity.
  - lia.
Qed.

Lemma pretty_two_digits (i : Z) :
  0 <= i <= 99 -> (String.length (pretty i) <= 2)%nat.
Proof.
  intros H. destruct i as [|p|p]; [cbn; lia| |lia].
  change (pretty (Z.pos p)) with (pretty_N_go (N.pos p) "").
  rewrite pretty_N_go_step by reflexivity.
  destruct (N.eq_dec (N.pos p `div` 10)%N 0%N) as [E|E].
  - rewrite E, pretty_N_go_0. cbn. lia.
  - rewrite pretty_N_go_step by now apply N.neq_0_lt_0.
    assert (E2 : ((N.pos p `div` 10) `div` 10 = 0)%N).
    { apply N.div_small. apply N.Div0.div_lt_upper_bound.
      change (N.pos p) with (Z.to_N (Z.pos p)). lia. }
    rewrite E2, pretty_N_go_0. cbn. lia.
Qed.

(** X16: two different indices of the config never get the same
    sequence name: the padding with 0 cannot make the numeral of one
    integer the numeral of another. *)
Theorem split_names_are_distinct (i j : Z) :
  i <> j -> split_name i <> split_name j.
Proof. intros H E. now apply H, split_name_inj. Qed.

(** X17: a sequence name has at least two characters; for the indices
    0 to 99 it has exactly two, and for 0 to 9 it is the digit after a
    0. *)
Theorem split_name_width (i : Z) :
  (2 <= String.length (split_name i))%nat /\
  (0 <= i <= 99 -> String.length (split_name i) = 2%nat) /\
  (0 <= i <= 9 -> split_name i = String "0" (pretty i)).
Proof.
  rewrite split_name_length. split; [lia|]. split.
  - intros H. pose proof (pretty_two_digits i H). lia.
  - intros H.
    assert (i = 0 \/ i = 1 \/ i = 2 \/ i = 3 \/ i = 4 \/ i = 5 \/ i = 6 \/ i = 7 \/
            i = 8 \/ i = 9) as Hi by lia.
    repeat destruct Hi as [->|Hi]; try subst i; reflexivity.
Qed.

(** ** The laboratory runs *)

(** C1 (the code at a failing input): in the laboratory the network
    predicts the translation 1 in each of the 3 inner iterations, so the
    ordered product of the incremental transforms is the translation by
    3, which is the ground truth [igt]; [val] nevertheless hands the
    identity to [geodesic_distance], the last call of the batch, and
    reports the error 6 of the uncorrected pose. *)
Lemma val_g0_is_not_the_product_of_increments :
  let w := Lab.world false in
  let run := val_batch (C := Lab.lab) Lab.batch (PrimFloat.zero, PrimFloat.zero) w in
  let evs := map snd (new_events w (snd run)) in
  let product := compose_right (C := Lab.lab) (identity_transform Lab.batch) (increments evs) in
  increments evs = repeat [Lab.shift_x 1; Lab.shift_x 1] 3 /\
  product = [Lab.shift_x 3; Lab.shift_x 3] /\
  product = b_igt Lab.batch /\
  last evs =
    Some (EGeodesic (C := Lab.lab) [Lab.shift_x 0; Lab.shift_x 0] (b_igt Lab.batch)) /\
  identity_transform (C := Lab.lab) Lab.batch = [Lab.shift_x 0; Lab.shift_x 0] /\
  identity_transform (C := Lab.lab) Lab.batch <> product /\
  fst run = inr (PrimFloat.zero, 6%float).
Proof.
  cbv zeta. repeat split; try (vm_compute; reflexivity).
  vm_compute. discriminate.
Qed.

Lemma refinement_run_schedule_witness :
  exists (n : nat) (iters : list (Event (C := Lab.lab))),
    Z.of_nat n = 3 /\
    map kind_of iters = concat (repeat [KPredict; KExp; KReproject] n).
Proof.
  destruct (refinement_run_schedule (C := Lab.lab) 50%float 1%float 0.25%float Lab.batch
              (PrimFloat.zero, PrimFloat.zero)
              (PrimFloat.zero, PrimFloat.zero, PrimFloat.zero)
              (Lab.world false) 2 eq_refl ltac:(vm_compute; discriminate))
    as (n & iters & d' & pcd' & Hn & Hk & _).
  exists n, iters. split; assumption.
Defined.

Lemma only_the_increment_moves_the_cloud_witness :
  fst (train_iter (C := Lab.lab) 2%nat (mkDepthGen (C := Lab.lab) tt 2 5)
                  ([14; 34], [7; 17]) (Lab.world false))
  = inr ([16; 36], [8; 18]).
Proof.
  exact (proj1 (proj1 (proj2
    (only_the_increment_moves_the_cloud (C := Lab.lab) Lab.batch 2 [14; 34] [7; 17]
       [Lab.shift_x 5; Lab.shift_x 5] (Lab.world false) eq_refl)))).
Defined.

Lemma backpropagated_loss_witness :
  exists r w',
    train_batch (C := Lab.lab) 50%float 1%float 0.25%float Lab.batch
                (PrimFloat.zero, PrimFloat.zero, PrimFloat.zero) (Lab.world false)
    = (inr r, w').
Proof.
  destruct (backpropagated_loss (C := Lab.lab) 50%float 1%float 0.25%float Lab.batch
              (PrimFloat.zero, PrimFloat.zero, PrimFloat.zero) (Lab.world false) 2
              Lab.loader Lab.loader eq_refl)
    as ((r & w' & evs & iters & d' & pcd' & H & _) & _).
  exists r, w'. exact H.
Defined.

Lemma first_intrinsics_serve_the_batch_witness :
  val_batch (C := Lab.lab) Lab.batch (PrimFloat.zero, PrimFloat.zero) (Lab.world false) =
  val_batch (C := Lab.lab) (set_InTran (C := Lab.lab) [2] Lab.batch)
            (PrimFloat.zero, PrimFloat.zero)
            (Lab.world false).
Proof.
  exact (proj1 (proj1
    (first_intrinsics_serve_the_batch (C := Lab.lab) 50%float 1%float 0.25%float Lab.batch
       (PrimFloat.zero, PrimFloat.zero) (PrimFloat.zero, PrimFloat.zero, PrimFloat.zero)
       (Lab.world false) 2 [9] eq_refl))).
Defined.

Lemma best_and_last_checkpoints_witness :
  exists loss_dx : float,
    6%float = (if PrimFloat.ltb loss_dx PrimFloat.infinity then loss_dx else PrimFloat.infinity).
Proof.
  assert (H : train_epoch (C := Lab.lab) Lab.loader Lab.loader 50%float 1%float 0.25%float 0
                (0%nat, PrimFloat.infinity) (Lab.world false) =
              (inr (1%nat, 6%float),
               snd (train_epoch (C := Lab.lab) Lab.loader Lab.loader 50%float 1%float
                      0.25%float 0 (0%nat, PrimFloat.infinity) (Lab.world false))))
    by (vm_compute; reflexivity).
  destruct (best_and_last_checkpoints (C := Lab.lab) _ _ _ _ _ _ _ _ _ _ _ _ H)
    as ((loss_dx & work & _ & Hm & _) & _).
  exists loss_dx. exact Hm.
Defined.


Lemma no_batch_of_one_witness :
  exists batches : list (list nat),
    main_loader 7 3 = inr batches /\ Forall (fun b => length b <> 1%nat) batches.
Proof.
  destruct (no_batch_of_one 7 3 ltac:(lia) ltac:(lia)) as (batches & _ & Hm & _ & H1 & _).
  exists batches. split; assumption.
Defined.



Lemma files_after_an_epoch_witness :
  exists w',
    train_epoch (C := Lab.lab) Lab.loader Lab.loader 50%float 1%float
                0.25%float 0 (0%nat, PrimFloat.infinity) (Lab.world false) =
      (inr (1%nat, 6%float), w') /\
    w_files w' !! last_path (w_args (Lab.world false)) = Some (checkpoint_dict w' 6%float 0) /\
    w_files w' !! best_path (w_args (Lab.world false)) = Some (checkpoint_dict w' 6%float 0).
Proof.
  eexists.
  assert (F : fst (train_epoch (C := Lab.lab) Lab.loader Lab.loader 50%float 1%float
                     0.25%float 0 (0%nat, PrimFloat.infinity) (Lab.world false)) =
              inr (1%nat, 6%float))
    by (vm_compute; reflexivity).
  assert (H : train_epoch (C := Lab.lab) Lab.loader Lab.loader 50%float 1%float
                0.25%float 0 (0%nat, PrimFloat.infinity) (Lab.world false) =
              (inr (1%nat, 6%float),
               snd (train_epoch (C := Lab.lab) Lab.loader Lab.loader 50%float 1%float
                      0.25%float 0 (0%nat, PrimFloat.infinity) (Lab.world false))))
    by (rewrite <- F; apply surjective_pairing).
  split; [exact H|].
  destruct (files_after_an_epoch (C := Lab.lab) _ _ _ _ _ _ _ _ _ _ _ _ H)
    as (_ & _ & Hl & Hb & _).
  split; [exact Hl | exact (Hb eq_refl)].
Defined.



Lemma resume_without_file_witness :
  let w := mkWorld (C := Lab.lab) Lab.resume_args false true Lab.model0 0 ∅ [] in
  exists w',
    train (C := Lab.lab) Lab.loader Lab.loader w =
      (inl (FileNotFoundError (a_resume (w_args w))), w') /\
    map snd (new_events w w') = [ELoad (C := Lab.lab) (a_resume (w_args w))].
Proof.
  intros w.
  destruct (resume_without_file (C := Lab.lab) Lab.loader Lab.loader w
              ltac:(vm_compute; discriminate) ltac:(vm_compute; reflexivity))
    as (w' & H & He & _).
  exists w'. split; [exact H | exact He].
Defined.

(** A checkpoint that holds the network only. *)
Lemma resume_with_missing_key_witness :
  let chkpt : gmap string (PyVal (C := Lab.lab)) :=
    {["model" := VModelState (C := Lab.lab) 7 3%nat]} in
  let w := mkWorld (C := Lab.lab) Lab.resume_args true true Lab.model0 0
                   {["checkpoint/model_last.pth" := chkpt]} [] in
  exists w',
    resume_or_fresh (C := Lab.lab) w = (inl (KeyError "optimizer"), w') /\
    m_params (w_model w') = 7.
Proof.
  intros chkpt w.
  destruct (proj1 (proj2 (resume_with_missing_key (C := Lab.lab) w chkpt
              ltac:(vm_compute; discriminate) ltac:(vm_compute; reflexivity)))
              7 3%nat ltac:(vm_compute; reflexivity) ltac:(vm_compute; reflexivity))
    as (w' & H & Hp & _).
  exists w'. split; [exact H | exact Hp].
Defined.

Lemma no_epoch_left_witness :
  exists w',
    train_epochs (C := Lab.lab) Lab.loader Lab.loader 2 6%float (Lab.world true) = (inr tt, w') /\
    w_files w' = w_files (Lab.world true).
Proof.
  destruct (no_epoch_left (C := Lab.lab) Lab.loader Lab.loader 2 6%float (Lab.world true)
              ltac:(vm_compute; discriminate))
    as (w' & H & _ & _ & _ & Hf).
  exists w'. split; [exact H | exact Hf].
Defined.

Lemma train_writes_only_the_checkpoints_witness :
  w_files (snd (train (C := Lab.lab) Lab.loader Lab.loader (Lab.world false)))
    !! "log/train.log" = w_files (Lab.world false) !! "log/train.log".
Proof.
  exact (train_writes_only_the_checkpoints (C := Lab.lab) Lab.loader Lab.loader
           (Lab.world false) "log/train.log"
           ltac:(vm_compute; discriminate) ltac:(vm_compute; discriminate)).
Defined.


Lemma loader_keeps_the_order_witness :
  exists batches : list (list nat),
    main_loader 7 3 = inr batches /\ concat batches = [0; 1; 2; 3; 4; 5]%nat.
Proof.
  destruct (loader_keeps_the_order 7 3 ltac:(lia) ltac:(lia)) as (batches & H & Hc).
  exists batches. split; [exact H | exact Hc].
Defined.

(** A dataset of one sample and a batch size of 4: no batch. *)
Lemma loader_batch_count_witness :
  main_loader 1 4 = inr [].
Proof.
  destruct (loader_batch_count 1 4 ltac:(lia) ltac:(lia)) as (batches & H & _ & He).
  rewrite H. f_equal. apply He. right. split; [reflexivity | lia].
Defined.

Lemma split_names_are_distinct_witness :
  split_name 7 <> split_name 70.
Proof. exact (split_names_are_distinct 7 70 ltac:(discriminate)). Defined.

Lemma epoch_schedule_witness :
  exists w',
    train_epoch (C := Lab.lab) Lab.loader Lab.loader 50%float 1%float
                0.25%float 0 (0%nat, PrimFloat.infinity) (Lab.world false) =
      (inr (1%nat, 6%float), w') /\
    map kind_of (map snd (new_events (Lab.world false) w')) =
      epoch_kinds (Z.to_nat (a_inner_iter (w_args (Lab.world false))))
                  (length (Lab.loader 0)) (length (Lab.loader 0))
                  (PrimFloat.ltb 6%float PrimFloat.infinity).
Proof.
  eexists.
  assert (F : fst (train_epoch (C := Lab.lab) Lab.loader Lab.loader 50%float 1%float
                     0.25%float 0 (0%nat, PrimFloat.infinity) (Lab.world false)) =
              inr (1%nat, 6%float))
    by (vm_compute; reflexivity).
  assert (H : train_epoch (C := Lab.lab) Lab.loader Lab.loader 50%float 1%float
                0.25%float 0 (0%nat, PrimFloat.infinity) (Lab.world false) =
              (inr (1%nat, 6%float),
               snd (train_epoch (C := Lab.lab) Lab.loader Lab.loader 50%float 1%float
                      0.25%float 0 (0%nat, PrimFloat.infinity) (Lab.world false))))
    by (rewrite <- F; apply surjective_pairing).
  split; [exact H|].
  exact (epoch_schedule (C := Lab.lab) _ _ _ _ _ _ _ _ _ _ _ _ H).
Defined.
